(** * Task, vocabulary and reloadable-action pipelines of dspace-angular

    A shallow embedding of
    - [src/app/core/tasks/tasks.service.ts]              (module [Tasks]),
    - [src/app/core/submission/vocabularies/vocabulary.service.ts]
                                                          (module [Vocabularies]),
    - the reloadable mydspace actions component           (module [Reloadable]).

    All three are RxJS pipelines.  An observable is represented by the
    sequence of values it has delivered to its subscriber so far, in delivery
    order.  The sources these pipelines listen to (HAL endpoint resolution,
    cache-backed [RemoteData] streams) stay open, so a trace carries no
    completion mark.  Inner observables created by [mergeMap]/[switchMap] are
    traced in full before the next outer value is looked at. *)

From Stdlib Require Import Ascii String List Bool Arith NArith Lia.
Import ListNotations.
Open Scope string_scope.
Open Scope list_scope.

Set Implicit Arguments.

(* ------------------------------------------------------------------------- *)
(** ** RxJS operators on traces *)

Module Rx.

Definition Observable (A : Type) : Type := list A.

(** [of(a)] *)
Definition observableOf {A} (a : A) : Observable A := [a].

Definition map {A B} (f : A -> B) (src : Observable A) : Observable B :=
  List.map f src.

Definition filter {A} (p : A -> bool) (src : Observable A) : Observable A :=
  List.filter p src.

(** [distinctUntilChanged()] compares each value with the last one that was
    let through, using [===]; [same] is that comparison. *)
Fixpoint distinctAfter {A} (same : A -> A -> bool) (prev : A)
         (src : Observable A) : Observable A :=
  match src with
  | [] => []
  | x :: rest =>
      if same prev x then distinctAfter same prev rest
      else x :: distinctAfter same x rest
  end.

Definition distinctUntilChanged {A} (same : A -> A -> bool)
           (src : Observable A) : Observable A :=
  match src with
  | [] => []
  | x :: rest => x :: distinctAfter same x rest
  end.

(** [find(p)]: the first value satisfying [p], then nothing more; nothing
    while no such value has arrived. *)
Definition find {A} (p : A -> bool) (src : Observable A) : Observable A :=
  match List.find p src with
  | Some x => [x]
  | None => []
  end.

Definition mergeMap {A B} (f : A -> Observable B) (src : Observable A)
  : Observable B := List.flat_map f src.

(** [flatMap] is the RxJS 6 alias of [mergeMap]. *)
Definition flatMap {A B} := @mergeMap A B.

Definition switchMap {A B} (f : A -> Observable B) (src : Observable A)
  : Observable B := List.flat_map f src.

(** [===] on objects is reference equality: two objects built by separate
    [new] expressions are never the same. *)
Definition sameReference {A} (_ _ : A) : bool := false.

End Rx.

Import Rx.

(* ------------------------------------------------------------------------- *)
(** ** shared/empty.util *)

Module EmptyUtil.

(** Modelled from the spec: [isNotEmpty] of [shared/empty.util] is not among
    the sources.  The spec's pipelines "suspend until resolved and
    non-empty" and treat a missing [scopeId] as not given: a string is not
    empty when it has at least one character, a missing value is empty. *)
Definition isNotEmptyString (s : string) : bool :=
  negb (String.eqb s "").

Definition isNotEmpty (v : option string) : bool :=
  match v with
  | Some s => isNotEmptyString s
  | None => false
  end.

(** Modelled from the spec: [isNotEmpty] on an array that may be missing,
    "an empty result set": at least one element. *)
Definition isNotEmptyArray {A} (l : option (list A)) : bool :=
  match l with
  | Some (_ :: _) => true
  | _ => false
  end.

(** Modelled from the spec: [hasValue] of [shared/empty.util] is not among
    the sources.  The spec's search "waits for the first non-empty
    candidate", so [hasValue] is taken to accept a string when it is not
    empty. *)
Definition hasValue (href : string) : bool := isNotEmptyString href.

(** Modelled from the spec: [isNotEmptyOperator()] lets the non-empty values
    through. *)
Definition isNotEmptyOperator (src : Observable string) : Observable string :=
  filter isNotEmptyString src.

End EmptyUtil.

(* ------------------------------------------------------------------------- *)
(** ** core/data/remote-data and core/shared/operators *)

Module Remote.

(** Modelled from the spec: the [RemoteData] envelope, "state in
    {RequestPending, ResponsePending, Success, Failure}, plus payload
    (present only in Success), statusCode, errorMessage". *)
Inductive RemoteData (T : Type) : Type :=
| RequestPending
| ResponsePending
| Success (payload : T) (statusCode : option nat)
| Failure (statusCode : option nat) (errorMessage : option string).

Arguments RequestPending {T}.
Arguments ResponsePending {T}.
Arguments Success {T} _ _.
Arguments Failure {T} _ _.

Definition hasSucceeded {T} (rd : RemoteData T) : bool :=
  match rd with Success _ _ => true | _ => false end.

Definition hasFailed {T} (rd : RemoteData T) : bool :=
  match rd with Failure _ _ => true | _ => false end.

Definition statusCode {T} (rd : RemoteData T) : option nat :=
  match rd with
  | Success _ c => c
  | Failure c _ => c
  | _ => None
  end.

Definition errorMessage {T} (rd : RemoteData T) : option string :=
  match rd with
  | Failure _ m => m
  | _ => None
  end.

(** Modelled from the spec: [getFirstCompletedRemoteData()], "await the
    gateway's resolved response": the first envelope that is no longer
    pending. *)
Definition getFirstCompletedRemoteData {T} (src : Rx.Observable (RemoteData T))
  : Rx.Observable (RemoteData T) :=
  Rx.find (fun rd => hasSucceeded rd || hasFailed rd) src.

(** An envelope that is still pending: neither succeeded nor failed. *)
Definition pending {T} (rd : RemoteData T) : Prop :=
  hasSucceeded rd || hasFailed rd = false.

(** The payload travels with a [Success] envelope only. *)
Definition getRemoteDataPayload {T} (src : Rx.Observable (RemoteData T))
  : Rx.Observable T :=
  Rx.mergeMap (fun rd => match rd with
                         | Success p _ => [p]
                         | _ => []
                         end) src.

(** Modelled from the spec: [getFirstSucceededRemoteDataPayload()], "unwrap
    to its first successful payload". *)
Definition getFirstSucceededRemoteDataPayload {T}
           (src : Rx.Observable (RemoteData T)) : Rx.Observable T :=
  getRemoteDataPayload (Rx.find hasSucceeded src).

End Remote.

(* ------------------------------------------------------------------------- *)
(** ** core/data/request.models and core/data/request.service *)

Module Requests.

Definition RequestId : Type := nat.

(** [HttpOptions] as [makeHttpOptions] fills it: a list of headers. *)
Record HttpOptions : Type := mkHttpOptions {
  headers : list (string * string)
}.

(** The request classes the pipelines instantiate.  A body is kept in its
    serialised form. *)
Inductive RestRequest : Type :=
| TaskPostRequest (uuid : RequestId) (href : string)
                  (body : option string) (options : option HttpOptions)
| TaskDeleteRequest (uuid : RequestId) (href : string)
                    (body : option string) (options : option HttpOptions)
| VocabularyEntriesRequest (uuid : RequestId) (href : string).

Inductive RestRequestMethod : Type := GET | POST | DELETE.

Definition method (r : RestRequest) : RestRequestMethod :=
  match r with
  | TaskPostRequest _ _ _ _ => POST
  | TaskDeleteRequest _ _ _ _ => DELETE
  | VocabularyEntriesRequest _ _ => GET
  end.

Definition href (r : RestRequest) : string :=
  match r with
  | TaskPostRequest _ h _ _ => h
  | TaskDeleteRequest _ h _ _ => h
  | VocabularyEntriesRequest _ h => h
  end.

Definition uuid (r : RestRequest) : RequestId :=
  match r with
  | TaskPostRequest u _ _ _ => u
  | TaskDeleteRequest u _ _ _ => u
  | VocabularyEntriesRequest u _ => u
  end.

(** Modelled from the spec: the request service hands out "a freshly
    generated unique request identifier" and accepts request descriptors;
    [configured] is the log of the descriptors it was given, oldest first. *)
Record RequestService : Type := mkRequestService {
  nextId : RequestId;
  configured : list RestRequest
}.

Definition generateRequestId (rs : RequestService)
  : RequestId * RequestService :=
  (nextId rs, mkRequestService (S (nextId rs)) (configured rs)).

Definition configure (rs : RequestService) (r : RestRequest)
  : RequestService :=
  mkRequestService (nextId rs) (configured rs ++ [r]).

(** [tap(request => requestService.configure(request))], also the
    [configureRequest(requestService)] operator. *)
Definition tapConfigure (src : Rx.Observable RestRequest) (rs : RequestService)
  : Rx.Observable RestRequest * RequestService :=
  (src, fold_left configure src rs).

End Requests.

(* ------------------------------------------------------------------------- *)
(** ** core/tasks/tasks.service.ts *)

Module Tasks.

Import Rx EmptyUtil Requests.

(** [ProcessTaskResponse], built by [new ProcessTaskResponse(ok, code?, msg?)]
    and read through [hasSucceeded]. *)
Record ProcessTaskResponse : Type := mkProcessTaskResponse {
  hasSucceeded : bool;
  statusCode : option nat;
  errorMessage : option string
}.

(** A value spliced into a template literal. *)
Definition templateString (v : option string) : string :=
  match v with
  | Some s => s
  | None => "undefined"
  end.

(** [a || b] on an optional string: an absent or empty [a] is falsy. *)
Definition orElse (a : option string) (b : string) : string :=
  match a with
  | Some s => if String.eqb s "" then b else s
  | None => b
  end.

Definition getEndpointByIDHref (endpoint : string) (resourceID : option string)
  : string :=
  if isNotEmpty resourceID
  then endpoint ++ "/" ++ templateString resourceID
  else endpoint.

Section TasksService.

(** The payload type of the gateway's envelopes ([RemoteData<any>]), and the
    collaborators the service gets injected. *)
Variable Any : Type.
Variable halService_getEndpoint : string -> Observable string.
Variable rdbService_buildFromRequestUUID
  : RequestId -> Observable (Remote.RemoteData Any).
Variable this_linkPath : string.

Definition fetchRequest (requestId : RequestId)
  : Observable ProcessTaskResponse :=
  map (fun response : Remote.RemoteData Any =>
         if Remote.hasFailed response
         then mkProcessTaskResponse false (Remote.statusCode response)
                                    (Remote.errorMessage response)
         else mkProcessTaskResponse true (Remote.statusCode response) None)
      (Remote.getFirstCompletedRemoteData
         (rdbService_buildFromRequestUUID requestId)).

Definition postToEndpoint (linkPath : string) (body : option string)
           (scopeId : option string) (options : option HttpOptions)
           (rs : RequestService)
  : Observable ProcessTaskResponse * RequestService :=
  let (requestId, rs1) := generateRequestId rs in
  let hrefs := filter isNotEmptyString (halService_getEndpoint linkPath) in
  let urls :=
    distinctUntilChanged String.eqb
      (map (fun endpointURL => getEndpointByIDHref endpointURL scopeId) hrefs) in
  let requests :=
    map (fun endpointURL => TaskPostRequest requestId endpointURL body options)
        urls in
  let (requests', rs2) := tapConfigure requests rs1 in
  (distinctUntilChanged sameReference
     (flatMap (fun _ : RestRequest => fetchRequest requestId) requests'),
   rs2).

(** The URLs a [postToEndpoint] call turns into requests: its pipe up to the
    first [distinctUntilChanged]. *)
Definition postUrls (linkPath : string) (scopeId : option string)
  : Observable string :=
  distinctUntilChanged String.eqb
    (map (fun endpointURL => getEndpointByIDHref endpointURL scopeId)
         (filter isNotEmptyString (halService_getEndpoint linkPath))).

Definition getEndpointById (scopeId : string) (linkPath : option string)
  : Observable string :=
  map (fun endpointURL => getEndpointByIDHref endpointURL (Some scopeId))
      (distinctUntilChanged String.eqb
         (filter isNotEmptyString
            (halService_getEndpoint (orElse linkPath this_linkPath)))).

Definition deleteById (linkPath : string) (scopeId : string)
           (options : option HttpOptions) (rs : RequestService)
  : Observable ProcessTaskResponse * RequestService :=
  let (requestId, rs1) := generateRequestId rs in
  let requests :=
    map (fun endpointURL => TaskDeleteRequest requestId endpointURL None options)
        (getEndpointById scopeId (Some linkPath)) in
  let (requests', rs2) := tapConfigure requests rs1 in
  (distinctUntilChanged sameReference
     (flatMap (fun _ : RestRequest => fetchRequest requestId) requests'),
   rs2).

Definition makeHttpOptions : HttpOptions :=
  mkHttpOptions [("Content-Type", "application/x-www-form-urlencoded")].

(** [searchTask]: [getSearchByHref] and [findByHref] are inherited from the
    data service; [hasValue] is imported from [shared/empty.util], which is
    not among the sources, and is left open here ([EmptyUtil.hasValue] is its
    reading from the spec). *)
Variables FindListOptions FollowLinkConfig T : Type.
Variable hasValue : string -> bool.
Variable getSearchByHref
  : string -> FindListOptions -> list FollowLinkConfig -> Observable string.
Variable findByHref : string -> Observable (Remote.RemoteData T).

(** The hrefs handed to [findByHref]: what [find] lets through. *)
Definition searchTaskHref (searchMethod : string) (options : FindListOptions)
           (linksToFollow : list FollowLinkConfig) : Observable string :=
  let hrefObs := getSearchByHref searchMethod options linksToFollow in
  find hasValue hrefObs.

Definition searchTask (searchMethod : string) (options : FindListOptions)
           (linksToFollow : list FollowLinkConfig)
  : Observable (Remote.RemoteData T) :=
  switchMap (fun href => findByHref href)
            (searchTaskHref searchMethod options linksToFollow).

End TasksService.

End Tasks.

(* ------------------------------------------------------------------------- *)
(** ** core/submission/vocabularies/vocabulary.service.ts *)

Module Vocabularies.

Import Rx EmptyUtil Requests.

Record PageInfo : Type := mkPageInfo {
  elementsPerPage : option nat;
  currentPage : option nat;
  totalElements : option nat;
  totalPages : option nat
}.

(** [new VocabularyFindOptions(a, value, exact, ID, elementsPerPage,
    currentPage)]: the six constructor arguments in call order; the service
    always passes [null] for the first. *)
Record VocabularyFindOptions : Type := mkVocabularyFindOptions {
  collection : option string;
  query : option string;
  exact : option bool;
  entryID : option string;
  findElementsPerPage : option nat;
  findCurrentPage : option nat
}.

(** Of [VocabularyOptions] the service reads the vocabulary name only. *)
Record VocabularyOptions : Type := mkVocabularyOptions {
  name : string
}.

Record HALLink : Type := mkHALLink { href : string }.

Record VocabularyLinks : Type := mkVocabularyLinks { entries : HALLink }.

Record Vocabulary : Type := mkVocabulary { _links : VocabularyLinks }.

Record VocabularyEntry : Type := mkVocabularyEntry {
  authority : option string;
  display : string;
  value : string;
  otherInformation : list (string * string)
}.

Record PaginatedList (T : Type) : Type := mkPaginatedList {
  pageInfo : PageInfo;
  page : option (list T)
}.

Arguments mkPaginatedList {T} _ _.

(** [GenericSuccessResponse<VocabularyEntry[]>] as the operator reads it. *)
Record GenericSuccessResponse : Type := mkGenericSuccessResponse {
  responsePageInfo : PageInfo;
  responsePayload : option (list VocabularyEntry)
}.

(** [Object.assign(new VocabularyEntry(), entry)]: a fresh entry with the
    fields of [entry]. *)
Definition assignVocabularyEntry (entry : VocabularyEntry) : VocabularyEntry :=
  mkVocabularyEntry (authority entry) (display entry) (value entry)
                    (otherInformation entry).

(** Modelled from the spec: [getFirstSucceededRemoteListPayload()], "takes
    the first successful list": the page of the first succeeded envelope. *)
Definition getFirstSucceededRemoteListPayload {T}
           (src : Observable (Remote.RemoteData (PaginatedList T)))
  : Observable (option (list T)) :=
  map (@page T) (Remote.getFirstSucceededRemoteDataPayload src).

(** [list[0]] *)
Definition index0 {T} (list : option (list T)) : option T :=
  match list with
  | Some (x :: _) => Some x
  | _ => None
  end.

(** The callback of the single-entry lookups:
    [isNotEmpty(list) ? list[0] : null]. *)
Definition firstOrNull {T} (list : option (list T)) : option T :=
  if isNotEmptyArray list then index0 list else None.

Section VocabularyService.

(** The collaborators: the vocabulary data service ([findById],
    [buildHrefFromFindOptions]), the request-entry lookup, the response filter
    and the remote-data builder, and what [new PageInfo()] yields. *)
Variable RequestEntry : Type.
Variable findVocabularyById
  : string -> Observable (Remote.RemoteData Vocabulary).
Variable buildHrefFromFindOptions : string -> VocabularyFindOptions -> string.
Variable getRequestFromRequestHref
  : Observable string -> Observable RequestEntry.
Variable filterSuccessfulResponses
  : Observable RequestEntry -> Observable GenericSuccessResponse.
Variable toRemoteDataObservable
  : Observable RequestEntry -> Observable (PaginatedList VocabularyEntry) ->
    Observable (Remote.RemoteData (PaginatedList VocabularyEntry)).
Variable newPageInfo : PageInfo.

(** [toRDPaginatedVocabularyEntries] on a source that delivers the same
    requests to each of its subscribers. *)
Definition toRDPaginatedVocabularyEntries (source : Observable RestRequest)
  : Observable (Remote.RemoteData (PaginatedList VocabularyEntry)) :=
  let href' := map Requests.href source in
  let requestEntry' := getRequestFromRequestHref href' in
  let payload' :=
    distinctUntilChanged sameReference
      (map (fun list : PaginatedList VocabularyEntry =>
              mkPaginatedList (pageInfo list)
                (match page list with
                 | Some p => Some (List.map assignVocabularyEntry p)
                 | None => None
                 end))
         (map (fun response =>
                 mkPaginatedList (responsePageInfo response)
                                 (responsePayload response))
              (filterSuccessfulResponses requestEntry'))) in
  toRemoteDataObservable requestEntry' payload'.

(** [map(href => new VocabularyEntriesRequest(generateRequestId(), href))]:
    one fresh identifier per href. *)
Fixpoint newEntriesRequests (hrefs : Observable string) (rs : RequestService)
  : Observable RestRequest * RequestService :=
  match hrefs with
  | [] => ([], rs)
  | h :: rest =>
      let (requestId, rs1) := generateRequestId rs in
      let (requests, rs2) := newEntriesRequests rest rs1 in
      (VocabularyEntriesRequest requestId h :: requests, rs2)
  end.

(** One subscription to the pipe
    [source.pipe(map(href => new VocabularyEntriesRequest(...)),
    configureRequest(requestService))]: the requests it delivers and the
    request service afterwards.  The pipe is cold, every subscription
    generates identifiers and configures requests anew. *)
Definition subscribeEntriesRequests (source : Observable string)
           (rs : RequestService)
  : Observable RestRequest * RequestService :=
  let (requests, rs1) := newEntriesRequests source rs in
  tapConfigure requests rs1.

(** [toRDPaginatedVocabularyEntries] applied to a cold pipe of requests:
    [requestEntry$] and [payload$] are both built on the pipe and the
    builder reads each of them, so the pipe is subscribed twice, for
    [requestEntry$] and then for [payload$]. *)
Definition toRDPaginatedVocabularyEntriesCold
           (source : RequestService -> Observable RestRequest * RequestService)
           (rs : RequestService)
  : Observable (Remote.RemoteData (PaginatedList VocabularyEntry))
    * RequestService :=
  let (forRequestEntry, rs1) := source rs in
  let (forPayload, rs2) := source rs1 in
  let requestEntry' :=
    getRequestFromRequestHref (map Requests.href forRequestEntry) in
  let payload' :=
    distinctUntilChanged sameReference
      (map (fun list : PaginatedList VocabularyEntry =>
              mkPaginatedList (pageInfo list)
                (match page list with
                 | Some p => Some (List.map assignVocabularyEntry p)
                 | None => None
                 end))
         (map (fun response =>
                 mkPaginatedList (responsePageInfo response)
                                 (responsePayload response))
              (filterSuccessfulResponses
                 (getRequestFromRequestHref
                    (map Requests.href forPayload))))) in
  (toRemoteDataObservable requestEntry' payload', rs2).

Definition getVocabularyEntriesFor (source : Observable string)
           (rs : RequestService)
  : Observable (Remote.RemoteData (PaginatedList VocabularyEntry))
    * RequestService :=
  toRDPaginatedVocabularyEntriesCold (subscribeEntriesRequests source) rs.

(** The part the four entry operations share: from the vocabulary name and
    the find options to the hrefs that reach [getVocabularyEntriesFor]. *)
Definition entriesHref (vocabularyOptions : VocabularyOptions)
           (options : VocabularyFindOptions) : Observable string :=
  distinctUntilChanged String.eqb
    (isNotEmptyOperator
       (map (fun vocabulary : Vocabulary =>
               buildHrefFromFindOptions (href (entries (_links vocabulary)))
                                        options)
            (Remote.getFirstSucceededRemoteDataPayload
               (findVocabularyById (name vocabularyOptions))))).

Definition getVocabularyEntries (vocabularyOptions : VocabularyOptions)
           (pageInfo : PageInfo) (rs : RequestService) :=
  let options :=
    mkVocabularyFindOptions None None None None
                            (elementsPerPage pageInfo) (currentPage pageInfo) in
  getVocabularyEntriesFor (entriesHref vocabularyOptions options) rs.

Definition getVocabularyEntriesByValue (value : string) (exact : bool)
           (vocabularyOptions : VocabularyOptions) (pageInfo : PageInfo)
           (rs : RequestService) :=
  let options :=
    mkVocabularyFindOptions None (Some value) (Some exact) None
                            (elementsPerPage pageInfo) (currentPage pageInfo) in
  getVocabularyEntriesFor (entriesHref vocabularyOptions options) rs.

Definition getVocabularyEntryByValue (value : string)
           (vocabularyOptions : VocabularyOptions) (rs : RequestService)
  : Observable (option VocabularyEntry) * RequestService :=
  let (entries', rs1) :=
    getVocabularyEntriesByValue value true vocabularyOptions newPageInfo rs in
  (map firstOrNull (getFirstSucceededRemoteListPayload entries'), rs1).

Definition getVocabularyEntryByID (ID : string)
           (vocabularyOptions : VocabularyOptions) (rs : RequestService)
  : Observable (option VocabularyEntry) * RequestService :=
  let pageInfo := newPageInfo in
  let options :=
    mkVocabularyFindOptions None None None (Some ID)
                            (elementsPerPage pageInfo) (currentPage pageInfo) in
  let (entries', rs1) :=
    getVocabularyEntriesFor (entriesHref vocabularyOptions options) rs in
  (map firstOrNull (getFirstSucceededRemoteListPayload entries'), rs1).

End VocabularyService.

End Vocabularies.

(* ------------------------------------------------------------------------- *)
(** ** The reloadable mydspace actions component *)

Module Reloadable.

Import Rx.

(** A domain object carries the class it was built from; a search result
    built by [convertReloadedObject] carries the object it decorates. *)
Inductive DSpaceObject : Type :=
| Dso (constructor : string) (uuid : string)
| SearchResult (constructor : string) (indexableObject : DSpaceObject).

Definition constructorOf (dso : DSpaceObject) : string :=
  match dso with
  | Dso c _ => c
  | SearchResult c _ => c
  end.

(** What [reloadObjectExecution] emits: [RemoteData<DSpaceObject> |
    DSpaceObject], told apart by [instanceof RemoteData]. *)
Inductive Reloaded : Type :=
| IsRemoteData (res : Remote.RemoteData DSpaceObject)
| IsObject (res : DSpaceObject).

Record NotificationOptions : Type := mkNotificationOptions {
  timeOut : N;
  clickToClose : bool
}.

(** The side effects of the component, in the order they happen. *)
Inductive Effect : Type :=
| ProcessingNext (value : bool)
| ProcessCompletedEmit (result : bool) (reloadedObject : DSpaceObject)
| Reload
| NotifySuccess (title : option string) (contentKey : string)
                (options : NotificationOptions)
| NotifyError (title : option string) (contentKey : string)
              (options : NotificationOptions).

(** [reloadedObject] is [null] or an object; only an object is truthy. *)
Definition handleReloadableActionResponse (result : bool)
           (reloadedObject : option DSpaceObject) : list Effect :=
  if result then
    (match reloadedObject with
     | Some o => [ProcessCompletedEmit result o]
     | None => [Reload]
     end)
    ++ [NotifySuccess None "submission.workflow.tasks.generic.success"
                      (mkNotificationOptions 5000%N false)]
  else
    [NotifyError None "submission.workflow.tasks.generic.error"
                 (mkNotificationOptions 20000%N true)].

Section Component.

(** The two abstract methods a concrete action supplies, and the decorator
    registry consulted by [convertReloadedObject], taken to know a search
    result class for every class of object. *)
Variable actionExecution : Observable Tasks.ProcessTaskResponse.
Variable reloadObjectExecution : Observable Reloaded.
Variable getSearchResultFor : string -> string.

Definition convertReloadedObject (dso : DSpaceObject) : DSpaceObject :=
  let constructor := getSearchResultFor (constructorOf dso) in
  SearchResult constructor dso.

Definition _reloadObject : Observable DSpaceObject :=
  map (fun dso => convertReloadedObject dso)
      (switchMap
         (fun res =>
            match res with
            | IsRemoteData rd =>
                Remote.getFirstSucceededRemoteDataPayload (observableOf rd)
            | IsObject o => observableOf o
            end)
         reloadObjectExecution).

(** What one action outcome sets off inside the [switchMap] of
    [startActionExecution]: the effects, and the values passed downstream. *)
Definition onActionResponse (res : Tasks.ProcessTaskResponse)
  : list Effect * Observable (option DSpaceObject) :=
  if Tasks.hasSucceeded res then
    (flat_map
       (fun reloadedObject =>
          ProcessingNext false
          :: handleReloadableActionResponse (Tasks.hasSucceeded res)
                                            (Some reloadedObject))
       _reloadObject,
     map Some _reloadObject)
  else
    (ProcessingNext false
     :: handleReloadableActionResponse (Tasks.hasSucceeded res) None,
     observableOf None).

Definition startActionExecution
  : list Effect * Observable (option DSpaceObject) :=
  let runs := List.map onActionResponse actionExecution in
  (ProcessingNext true :: List.concat (List.map fst runs),
   List.concat (List.map snd runs)).

End Component.

(** The notifications among the effects of a run, and the other two kinds of
    effect the properties count. *)
Definition isNotification (e : Effect) : bool :=
  match e with
  | NotifySuccess _ _ _ | NotifyError _ _ _ => true
  | _ => false
  end.

Definition isErrorNotification (e : Effect) : bool :=
  match e with NotifyError _ _ _ => true | _ => false end.

Definition isActionResult (e : Effect) : bool :=
  match e with ProcessCompletedEmit _ _ => true | _ => false end.

Definition isReload (e : Effect) : bool :=
  match e with Reload => true | _ => false end.

Definition notifications (log : list Effect) : list Effect :=
  List.filter isNotification log.

Definition successNotification : Effect :=
  NotifySuccess None "submission.workflow.tasks.generic.success"
                (mkNotificationOptions 5000%N false).

Definition errorNotification : Effect :=
  NotifyError None "submission.workflow.tasks.generic.error"
              (mkNotificationOptions 20000%N true).

End Reloadable.

(* ------------------------------------------------------------------------- *)
(** ** Concrete collaborators, used to run the pipelines *)

Module Scenarios.

Import Rx Requests.

(** The HAL service knows the [claimtask] link; every other link is still
    unresolved. *)
Definition halClaimtask (linkPath : string) : Observable string :=
  if String.eqb linkPath "claimtask" then [""; "https://api/claimtask"]
  else [""].

(** The gateway answers every request with HTTP 200 after two pending
    states. *)
Definition gatewayOk (_ : RequestId) : Observable (Remote.RemoteData unit) :=
  [Remote.RequestPending; Remote.ResponsePending;
   Remote.Success tt (Some 200)].

(** The gateway rejects every request with HTTP 422. *)
Definition gatewayRejects (_ : RequestId)
  : Observable (Remote.RemoteData unit) :=
  [Remote.RequestPending;
   Remote.Failure (Some 422) (Some "Unprocessable Entity")].

Definition freshRequestService : RequestService := mkRequestService 0 [].

(** The search href of a task service: unresolved at first, then the href of
    the search method; a later re-emission carries another href. *)
Definition searchHrefs (searchMethod : string) (_ : unit) (_ : list unit)
  : Observable string :=
  [""; ("https://api/pooltasks/search/" ++ searchMethod)%string;
   "https://api/pooltasks/search/other"].

Definition searchHrefsUnresolved (_ : string) (_ : unit) (_ : list unit)
  : Observable string := [""; ""].

(** [findByHref] of a service whose objects are represented by their href. *)
Definition findTaskByHref (href : string)
  : Observable (Remote.RemoteData string) :=
  [Remote.ResponsePending; Remote.Success href (Some 200)].

(** A vocabulary service: the vocabulary resolves after a pending state and
    links to its entries. *)
Definition srsc : Vocabularies.VocabularyOptions :=
  Vocabularies.mkVocabularyOptions "srsc".

Definition findVocabulary (name : string)
  : Observable (Remote.RemoteData Vocabularies.Vocabulary) :=
  [Remote.RequestPending;
   Remote.Success
     (Vocabularies.mkVocabulary
        (Vocabularies.mkVocabularyLinks
           (Vocabularies.mkHALLink
              ("https://api/vocabularies/" ++ name ++ "/entries")%string)))
     (Some 200)].

(** The same vocabulary, delivered again after a cache refresh. *)
Definition findVocabularyTwice (name : string)
  : Observable (Remote.RemoteData Vocabularies.Vocabulary) :=
  findVocabulary name ++ findVocabulary name.


Definition buildHref (href : string)
           (options : Vocabularies.VocabularyFindOptions) : string :=
  (href ++ "?"
   ++ match Vocabularies.query options with
      | Some q => "filter=" ++ q
      | None => ""
      end
   ++ match Vocabularies.exact options with
      | Some true => "&exact=true"
      | _ => ""
      end
   ++ match Vocabularies.entryID options with
      | Some id => "entryID=" ++ id
      | None => ""
      end)%string.

Definition entry42 : Vocabularies.VocabularyEntry :=
  Vocabularies.mkVocabularyEntry (Some "srsc:42") "Physics" "Physics" [].

Definition defaultPageInfo : Vocabularies.PageInfo :=
  Vocabularies.mkPageInfo None None None None.

(** The gateway's request entries, represented by the href they stand for. *)
Definition requestEntries (hrefs : Observable string) : Observable string :=
  hrefs.

(** A backend that answers every entries request with [found]. *)
Definition respondsWith (found : list Vocabularies.VocabularyEntry)
           (entries : Observable string)
  : Observable Vocabularies.GenericSuccessResponse :=
  map (fun _ =>
         Vocabularies.mkGenericSuccessResponse
           (Vocabularies.mkPageInfo (Some 20) (Some 1)
                                    (Some (length found)) (Some 1))
           (Some found))
      entries.

Definition remoteDataOf (entries : Observable string)
           (payloads : Observable (Vocabularies.PaginatedList
                                     Vocabularies.VocabularyEntry))
  : Observable (Remote.RemoteData (Vocabularies.PaginatedList
                                     Vocabularies.VocabularyEntry)) :=
  map (fun _ => Remote.ResponsePending) entries
  ++ map (fun list => Remote.Success list (Some 200)) payloads.



(** A reloadable action on an item: outcomes of the action, and what the
    reload hands back. *)
Definition item : Reloadable.DSpaceObject := Reloadable.Dso "Item" "a1b2".

Definition searchResultFor (constructor : string) : string :=
  (constructor ++ "SearchResult")%string.

Definition actionSucceeded : Tasks.ProcessTaskResponse :=
  Tasks.mkProcessTaskResponse true (Some 200) None.

Definition actionFailed : Tasks.ProcessTaskResponse :=
  Tasks.mkProcessTaskResponse false (Some 500) (Some "Internal Server Error").

Definition reloadSucceeds : Observable Reloadable.Reloaded :=
  [Reloadable.IsRemoteData (Remote.Success item (Some 200))].

Definition reloadFails : Observable Reloadable.Reloaded :=
  [Reloadable.IsRemoteData
     (Remote.Failure (Some 500) (Some "Internal Server Error"))].

(** A reload that emits the object again after a cache update. *)
Definition reloadEmitsTwice : Observable Reloadable.Reloaded :=
  [Reloadable.IsObject item; Reloadable.IsObject item].

End Scenarios.

(* ------------------------------------------------------------------------- *)
(** ** vocabulary.service.ts: entry details *)

Module EntryDetails.

Import Rx Vocabularies.

(** The template literals of the entry-detail operations. *)
Definition findId (name id : string) : string :=
  (name ++ ":" ++ id)%string.

Definition parentLinkPath (name value : string) : string :=
  (name ++ ":" ++ value ++ "/parent")%string.

Definition childrenLinkPath (name value : string) : string :=
  (name ++ ":" ++ value ++ "/children")%string.

(** Whether a character occurs in a string. *)
Fixpoint occurs (c : Ascii.ascii) (s : string) : bool :=
  match s with
  | EmptyString => false
  | String d rest => Ascii.eqb c d || occurs c rest
  end.

Section EntryDetailService.

(** The entry-detail data service the operations delegate to. *)
Variables FollowLinkConfig Detail : Type.
Variable findById
  : string -> list FollowLinkConfig -> Observable (Remote.RemoteData Detail).
Variable findByHref
  : string -> list FollowLinkConfig -> Observable (Remote.RemoteData Detail).
Variable getBrowseEndpoint : Observable string.
Variable getFindAllHref : VocabularyFindOptions -> string -> Observable string.
Variable findAllByHref
  : string -> VocabularyFindOptions -> list FollowLinkConfig ->
    Observable (Remote.RemoteData (PaginatedList Detail)).

Definition findEntryDetailById (id name : string)
           (linksToFollow : list FollowLinkConfig)
  : Observable (Remote.RemoteData Detail) :=
  let findId := findId name id in
  findById findId linksToFollow.

Definition getEntryDetailParent (value name : string)
           (linksToFollow : list FollowLinkConfig)
  : Observable (Remote.RemoteData Detail) :=
  let linkPath := parentLinkPath name value in
  mergeMap (fun href => findByHref href linksToFollow)
           (map (fun href => (href ++ "/" ++ linkPath)%string)
                getBrowseEndpoint).

Definition getEntryDetailChildren (value name : string) (pageInfo : PageInfo)
           (linksToFollow : list FollowLinkConfig)
  : Observable (Remote.RemoteData (PaginatedList Detail)) :=
  let linkPath := childrenLinkPath name value in
  let options :=
    mkVocabularyFindOptions None None None None
                            (elementsPerPage pageInfo) (currentPage pageInfo) in
  mergeMap (fun href => findAllByHref href options linksToFollow)
           (getFindAllHref options linkPath).

End EntryDetailService.

End EntryDetails.

(* ------------------------------------------------------------------------- *)
(** ** Derived observations on runs *)

Module Observations.

Import Rx.

(** The value [processing$] holds after the effects [log], having held
    [current] before. *)
Fixpoint processingAfter (current : bool) (log : list Reloadable.Effect)
  : bool :=
  match log with
  | [] => current
  | Reloadable.ProcessingNext value :: rest => processingAfter value rest
  | _ :: rest => processingAfter current rest
  end.

(** No two neighbours of a sequence of hrefs are the same. *)
Fixpoint neighboursDiffer (hrefs : list string) : bool :=
  match hrefs with
  | a :: (b :: _) as rest => negb (String.eqb a b) && neighboursDiffer rest
  | _ => true
  end.

(** The requests one subscription builds for [hrefs] when the next free
    identifier is [next]. *)
Fixpoint entriesRequestsFrom (next : Requests.RequestId) (hrefs : list string)
  : list Requests.RestRequest :=
  match hrefs with
  | [] => []
  | h :: rest =>
      Requests.VocabularyEntriesRequest next h
      :: entriesRequestsFrom (S next) rest
  end.

(** Every configured request carries an identifier the service has already
    handed out. *)
Definition identifiersHandedOut (rs : Requests.RequestService) : Prop :=
  Forall (fun r => Requests.uuid r < Requests.nextId rs)
         (Requests.configured rs).

End Observations.

(* ------------------------------------------------------------------------- *)
(** ** More concrete collaborators *)

Module MoreScenarios.

Import Rx Requests.

(** A resolver that re-emits the endpoint unchanged and later moves it. *)
Definition halMoves (_ : string) : Observable string :=
  [""; "https://api/claimtask"; "https://api/claimtask";
   "https://api2/claimtask"].

(** The gateway as it looks early (still pending) and later (resolved, then
    refreshed with another status). *)
Definition gatewayEarly (_ : RequestId) : Observable (Remote.RemoteData unit) :=
  [Remote.RequestPending; Remote.ResponsePending].

Definition gatewayLater (_ : RequestId) : Observable (Remote.RemoteData unit) :=
  [Remote.RequestPending; Remote.Success tt (Some 200);
   Remote.Failure (Some 500) (Some "Internal Server Error")].

(** A request service that has already served two requests. *)
Definition usedRequestService : RequestService :=
  mkRequestService
    2 [TaskPostRequest 0 "https://api/claimtask/1" None None;
       VocabularyEntriesRequest 1 "https://api/vocabularies/srsc/entries"].

(** A vocabulary whose entries link changes in a later revision. *)
Definition findVocabularyRevised (name : string)
  : Observable (Remote.RemoteData Vocabularies.Vocabulary) :=
  Scenarios.findVocabulary name
  ++ [Remote.Success
        (Vocabularies.mkVocabulary
           (Vocabularies.mkVocabularyLinks
              (Vocabularies.mkHALLink "https://api/moved/entries")))
        (Some 200)].

(** An href builder that yields nothing for a vocabulary without link. *)
Definition buildNothing (_ : string)
           (_ : Vocabularies.VocabularyFindOptions) : string := "".

(** An action that reports twice: a failure, then a success. *)
Definition actionRetried : Observable Tasks.ProcessTaskResponse :=
  [Scenarios.actionFailed; Scenarios.actionSucceeded].

Definition reloadMixed : Observable Reloadable.Reloaded :=
  [Reloadable.IsRemoteData Remote.ResponsePending;
   Reloadable.IsRemoteData (Remote.Success Scenarios.item (Some 200));
   Reloadable.IsObject Scenarios.item].

End MoreScenarios.

(* ========================================================================= *)
(** * Properties *)

Unset Implicit Arguments.

(* ------------------------------------------------------------------------- *)
(** ** Traces *)

Section RxFacts.

Context {A : Type}.
Implicit Types (p : A -> bool) (l pre : list A).

Lemma find_skip p pre l :
  Forall (fun x => p x = false) pre -> Rx.find p (pre ++ l) = Rx.find p l.
Proof.
  unfold Rx.find. induction 1 as [|x pre Hx _ IH]; simpl; auto.
  now rewrite Hx.
Qed.

Lemma find_hit p x l : p x = true -> Rx.find p (x :: l) = [x].
Proof. unfold Rx.find; simpl; intros ->; reflexivity. Qed.

Lemma find_first p pre x l :
  Forall (fun y => p y = false) pre -> p x = true ->
  Rx.find p (pre ++ x :: l) = [x].
Proof. intros Hpre Hx. rewrite find_skip by assumption. now apply find_hit. Qed.

Lemma find_none p l : Forall (fun x => p x = false) l -> Rx.find p l = [].
Proof.
  intros H. rewrite <- (app_nil_r l). rewrite find_skip by assumption.
  reflexivity.
Qed.

Lemma filter_none p l :
  Forall (fun x => p x = false) l -> Rx.filter p l = [].
Proof.
  unfold Rx.filter. induction 1 as [|x l Hx _ IH]; simpl; auto.
  now rewrite Hx.
Qed.

Lemma filter_skip p pre l :
  Forall (fun x => p x = false) pre ->
  Rx.filter p (pre ++ l) = Rx.filter p l.
Proof.
  intros H. unfold Rx.filter. rewrite filter_app.
  fold (Rx.filter p pre). now rewrite filter_none.
Qed.

Lemma distinctAfter_sameReference (a : A) l :
  Rx.distinctAfter Rx.sameReference a l = l.
Proof. revert a; induction l as [|x l IH]; intros a; simpl; congruence. Qed.

Lemma distinct_sameReference l :
  Rx.distinctUntilChanged Rx.sameReference l = l.
Proof. destruct l; simpl; [|rewrite distinctAfter_sameReference]; auto. Qed.

Lemma distinct_short (same : A -> A -> bool) l :
  length l <= 1 -> Rx.distinctUntilChanged same l = l.
Proof. destruct l as [|x [|y l]]; simpl; auto; lia. Qed.

Lemma distinctAfter_length (same : A -> A -> bool) a l :
  length (Rx.distinctAfter same a l) <= length l.
Proof.
  revert a; induction l as [|x l IH]; intros a; simpl; auto.
  destruct (same a x); simpl; [specialize (IH a)|specialize (IH x)]; lia.
Qed.

Lemma distinct_length (same : A -> A -> bool) l :
  length (Rx.distinctUntilChanged same l) <= length l.
Proof.
  destruct l as [|x l]; simpl; auto.
  pose proof (distinctAfter_length same x l). lia.
Qed.

End RxFacts.

Lemma flat_map_const {A B} (l : list A) (out : list B) (b : B) :
  out = [b] -> flat_map (fun _ => out) l = repeat b (length l).
Proof. intros ->. induction l; simpl; congruence. Qed.

Lemma isNotEmptyString_true (s : string) :
  EmptyUtil.isNotEmptyString s = true <-> s <> "".
Proof.
  unfold EmptyUtil.isNotEmptyString.
  destruct (String.eqb_spec s ""); simpl; split; congruence.
Qed.

Lemma all_empty_rejected (l : list string) :
  Forall (fun h => h = "") l ->
  Forall (fun h => EmptyUtil.isNotEmptyString h = false) l.
Proof.
  intros H. eapply Forall_impl; [|exact H].
  intros h ->. reflexivity.
Qed.

(* ------------------------------------------------------------------------- *)
(** ** The request service *)

Lemma configured_fold (src : list Requests.RestRequest)
      (rs : Requests.RequestService) :
  Requests.configured (fold_left Requests.configure src rs)
  = Requests.configured rs ++ src.
Proof.
  revert rs; induction src as [|r src IH]; intros rs; simpl.
  - now rewrite app_nil_r.
  - rewrite IH; simpl. now rewrite <- app_assoc.
Qed.

Lemma nextId_fold (src : list Requests.RestRequest)
      (rs : Requests.RequestService) :
  Requests.nextId (fold_left Requests.configure src rs) = Requests.nextId rs.
Proof.
  revert rs; induction src as [|r src IH]; intros rs; simpl; auto.
  now rewrite IH.
Qed.

(* ------------------------------------------------------------------------- *)
(** ** The task request pipeline *)

Section TasksFacts.

Import Rx EmptyUtil Requests Tasks.

Variable Any : Type.
Variable halService_getEndpoint : string -> Observable string.
Variable rdbService_buildFromRequestUUID
  : RequestId -> Observable (Remote.RemoteData Any).
Variable this_linkPath : string.

Local Notation "'fetch'" := (fetchRequest rdbService_buildFromRequestUUID).
Local Notation "'post'" := (postToEndpoint halService_getEndpoint
                                           rdbService_buildFromRequestUUID).
Local Notation "'delete'" := (deleteById halService_getEndpoint
                                         rdbService_buildFromRequestUUID
                                         this_linkPath).
Local Notation "'postUrls'" := (Tasks.postUrls halService_getEndpoint).
Local Notation "'pending'" := (@Remote.pending Any).

Lemma fetchRequest_success requestId pre p c rest :
  rdbService_buildFromRequestUUID requestId = pre ++ Remote.Success p c :: rest ->
  Forall pending pre ->
  fetch requestId = [mkProcessTaskResponse true c None].
Proof.
  intros E Hpre. unfold fetchRequest, Remote.getFirstCompletedRemoteData.
  rewrite E, find_first; auto.
Qed.

Lemma fetchRequest_failure requestId pre c m rest :
  rdbService_buildFromRequestUUID requestId = pre ++ Remote.Failure c m :: rest ->
  Forall pending pre ->
  fetch requestId = [mkProcessTaskResponse false c m].
Proof.
  intros E Hpre. unfold fetchRequest, Remote.getFirstCompletedRemoteData.
  rewrite E, find_first; auto.
Qed.

Lemma fetchRequest_pending requestId :
  Forall pending (rdbService_buildFromRequestUUID requestId) ->
  fetch requestId = [].
Proof.
  intros H. unfold fetchRequest, Remote.getFirstCompletedRemoteData.
  now rewrite find_none.
Qed.

Lemma postToEndpoint_run linkPath body scopeId options rs :
  post linkPath body scopeId options rs
  = (flat_map (fun _ => fetch (nextId rs)) (postUrls linkPath scopeId),
     mkRequestService
       (S (nextId rs))
       (configured rs
        ++ List.map (fun u => TaskPostRequest (nextId rs) u body options)
                    (postUrls linkPath scopeId))).
Proof.
  unfold postToEndpoint, postUrls, tapConfigure, flatMap, mergeMap; simpl.
  rewrite distinct_sameReference. unfold map at 1.
  rewrite flat_map_concat_map, map_map, <- flat_map_concat_map.
  f_equal.
  set (reqs := map _ (distinctUntilChanged _ _)).
  pose proof (configured_fold reqs
                (mkRequestService (S (nextId rs)) (configured rs))) as Hc.
  pose proof (nextId_fold reqs
                (mkRequestService (S (nextId rs)) (configured rs))) as Hn.
  destruct (fold_left configure reqs _) as [n c]; simpl in *.
  subst; reflexivity.
Qed.

Lemma deleteById_run linkPath scopeId options rs :
  delete linkPath scopeId options rs
  = (flat_map (fun _ => fetch (nextId rs))
              (getEndpointById halService_getEndpoint this_linkPath scopeId
                               (Some linkPath)),
     mkRequestService
       (S (nextId rs))
       (configured rs
        ++ List.map (fun u => TaskDeleteRequest (nextId rs) u None options)
                    (getEndpointById halService_getEndpoint this_linkPath
                                     scopeId (Some linkPath)))).
Proof.
  unfold deleteById, tapConfigure, flatMap, mergeMap; simpl.
  rewrite distinct_sameReference. unfold map.
  rewrite flat_map_concat_map, map_map, <- flat_map_concat_map.
  f_equal.
  set (reqs := List.map _ (getEndpointById _ _ _ _)).
  pose proof (configured_fold reqs
                (mkRequestService (S (nextId rs)) (configured rs))) as Hc.
  pose proof (nextId_fold reqs
                (mkRequestService (S (nextId rs)) (configured rs))) as Hn.
  destruct (fold_left configure reqs _) as [n c]; simpl in *.
  subst; reflexivity.
Qed.

Lemma submitted_count (rs : RequestService) (n : RequestId)
      (reqs : list RestRequest) :
  length (configured (mkRequestService n (configured rs ++ reqs)))
  - length (configured rs) = length reqs.
Proof. simpl. rewrite length_app. lia. Qed.

Lemma postUrls_stalled linkPath scopeId :
  Forall (fun h => h = "") (halService_getEndpoint linkPath) ->
  postUrls linkPath scopeId = [].
Proof.
  intros H. unfold Tasks.postUrls.
  now rewrite filter_none by now apply all_empty_rejected.
Qed.

Lemma postUrls_first linkPath scopeId pre U rest :
  halService_getEndpoint linkPath = pre ++ U :: rest ->
  Forall (fun h => h = "") pre -> U <> "" ->
  exists more,
    postUrls linkPath scopeId = getEndpointByIDHref U scopeId :: more.
Proof.
  intros E Hpre HU. unfold Tasks.postUrls.
  rewrite E, filter_skip by now apply all_empty_rejected.
  unfold filter; simpl.
  apply isNotEmptyString_true in HU. rewrite HU. simpl. eauto.
Qed.

Lemma postUrls_resolved linkPath scopeId pre U :
  halService_getEndpoint linkPath = pre ++ [U] ->
  Forall (fun h => h = "") pre -> U <> "" ->
  postUrls linkPath scopeId = [getEndpointByIDHref U scopeId].
Proof.
  intros E Hpre HU. unfold Tasks.postUrls.
  rewrite E, filter_skip by now apply all_empty_rejected.
  unfold filter; simpl.
  apply isNotEmptyString_true in HU. now rewrite HU.
Qed.

Lemma getEndpointById_stalled scopeId linkPath :
  Forall (fun h => h = "")
         (halService_getEndpoint (orElse linkPath this_linkPath)) ->
  getEndpointById halService_getEndpoint this_linkPath scopeId linkPath = [].
Proof.
  intros H. unfold getEndpointById.
  now rewrite filter_none by now apply all_empty_rejected.
Qed.

Lemma getEndpointById_first scopeId linkPath pre U rest :
  halService_getEndpoint (orElse linkPath this_linkPath) = pre ++ U :: rest ->
  Forall (fun h => h = "") pre -> U <> "" ->
  exists more,
    getEndpointById halService_getEndpoint this_linkPath scopeId linkPath
    = getEndpointByIDHref U (Some scopeId) :: more.
Proof.
  intros E Hpre HU. unfold getEndpointById.
  rewrite E, filter_skip by now apply all_empty_rejected.
  unfold filter; simpl.
  apply isNotEmptyString_true in HU. rewrite HU. simpl. eauto.
Qed.

Lemma getEndpointById_resolved scopeId linkPath pre U :
  halService_getEndpoint (orElse linkPath this_linkPath) = pre ++ [U] ->
  Forall (fun h => h = "") pre -> U <> "" ->
  getEndpointById halService_getEndpoint this_linkPath scopeId linkPath
  = [getEndpointByIDHref U (Some scopeId)].
Proof.
  intros E Hpre HU. unfold getEndpointById.
  rewrite E, filter_skip by now apply all_empty_rejected.
  unfold filter; simpl.
  apply isNotEmptyString_true in HU. now rewrite HU.
Qed.

(** One outcome per submitted request, all equal, when the gateway has
    resolved the request identifier to [outcome]. *)
Lemma outcomes_of_resolved linkPath body scopeId options rs outcome :
  fetch (nextId rs) = [outcome] ->
  fst (post linkPath body scopeId options rs)
  = repeat outcome
      (length (configured (snd (post linkPath body scopeId options rs)))
       - length (configured rs))
  /\ forall scope,
      fst (delete linkPath scope options rs)
      = repeat outcome
          (length (configured (snd (delete linkPath scope options rs)))
           - length (configured rs)).
Proof.
  intros Hf. split; [|intros scope].
  - rewrite postToEndpoint_run; unfold fst, snd.
    rewrite submitted_count, length_map. now apply flat_map_const.
  - rewrite deleteById_run; unfold fst, snd.
    rewrite submitted_count, length_map. now apply flat_map_const.
Qed.

(** C2. Every task submission, [postToEndpoint] or [deleteById], reduces the
    gateway's first resolved response for its request identifier: a success
    gives one outcome [{succeeded: true, statusCode: code}] without error
    message per submitted request, a failure gives [{succeeded: false,
    statusCode: code, errorMessage: message}] with the gateway's code and
    message unchanged. *)
Theorem task_outcome_reduces_response
        linkPath body scopeId scope options rs pre response rest :
  rdbService_buildFromRequestUUID (nextId rs) = pre ++ response :: rest ->
  Forall pending pre ->
  let posted := post linkPath body scopeId options rs in
  let deleted := delete linkPath scope options rs in
  let submitted run := length (configured (snd run)) - length (configured rs) in
  (forall payload code,
      response = Remote.Success payload code ->
      fetch (nextId rs) = [mkProcessTaskResponse true code None]
      /\ fst posted
         = repeat (mkProcessTaskResponse true code None) (submitted posted)
      /\ fst deleted
         = repeat (mkProcessTaskResponse true code None) (submitted deleted))
  /\ (forall code message,
      response = Remote.Failure code message ->
      fetch (nextId rs) = [mkProcessTaskResponse false code message]
      /\ fst posted
         = repeat (mkProcessTaskResponse false code message) (submitted posted)
      /\ fst deleted
         = repeat (mkProcessTaskResponse false code message)
                  (submitted deleted)).
Proof.
  intros E Hpre posted deleted submitted. split.
  - intros payload code ->.
    pose proof (fetchRequest_success _ _ _ _ _ E Hpre) as Hf.
    destruct (outcomes_of_resolved linkPath body scopeId options rs _ Hf)
      as [Hp Hd].
    split; [exact Hf|]. split; [exact Hp|apply Hd].
  - intros code message ->.
    pose proof (fetchRequest_failure _ _ _ _ _ E Hpre) as Hf.
    destruct (outcomes_of_resolved linkPath body scopeId options rs _ Hf)
      as [Hp Hd].
    split; [exact Hf|]. split; [exact Hp|apply Hd].
Qed.

(** C4. While every value the endpoint resolver has delivered is the empty
    string, [postToEndpoint] and [deleteById] submit no request and emit no
    outcome; once a non-empty endpoint arrives, the first request goes to it
    and the first outcomes are those of that request. *)
Theorem empty_endpoint_stalls linkPath body scopeId scope options rs :
  (Forall (fun h => h = "") (halService_getEndpoint linkPath) ->
   post linkPath body scopeId options rs
   = ([], mkRequestService (S (nextId rs)) (configured rs)))
  /\ (Forall (fun h => h = "")
             (halService_getEndpoint (orElse (Some linkPath) this_linkPath)) ->
      delete linkPath scope options rs
      = ([], mkRequestService (S (nextId rs)) (configured rs)))
  /\ (forall pre U rest,
         halService_getEndpoint linkPath = pre ++ U :: rest ->
         Forall (fun h => h = "") pre -> U <> "" ->
         exists later outcomes,
           configured (snd (post linkPath body scopeId options rs))
           = configured rs
             ++ TaskPostRequest (nextId rs) (getEndpointByIDHref U scopeId)
                                body options :: later
           /\ fst (post linkPath body scopeId options rs)
              = fetch (nextId rs) ++ outcomes)
  /\ (forall pre U rest,
         halService_getEndpoint (orElse (Some linkPath) this_linkPath)
         = pre ++ U :: rest ->
         Forall (fun h => h = "") pre -> U <> "" ->
         exists later outcomes,
           configured (snd (delete linkPath scope options rs))
           = configured rs
             ++ TaskDeleteRequest (nextId rs)
                                  (getEndpointByIDHref U (Some scope))
                                  None options :: later
           /\ fst (delete linkPath scope options rs)
              = fetch (nextId rs) ++ outcomes).
Proof.
  repeat split.
  - intros H. rewrite postToEndpoint_run, postUrls_stalled by assumption; simpl.
    now rewrite app_nil_r.
  - intros H. rewrite deleteById_run, getEndpointById_stalled by assumption; simpl.
    now rewrite app_nil_r.
  - intros pre U rest E Hpre HU.
    destruct (postUrls_first _ scopeId _ _ _ E Hpre HU) as [more Hm].
    rewrite postToEndpoint_run, Hm; simpl. eauto.
  - intros pre U rest E Hpre HU.
    destruct (getEndpointById_first scope _ _ _ _ E Hpre HU) as [more Hm].
    rewrite deleteById_run, Hm; simpl. eauto.
Qed.

(** C7. With the endpoint of [linkPath] resolved to the base URL [U] and a
    non-empty [scopeId], [postToEndpoint] submits exactly one request, a POST
    to [U/scopeId]; a successful gateway response with status [code] (HTTP
    200 in the scenario) reduces to the single outcome [{succeeded: true,
    statusCode: code}]. *)
Theorem post_targets_scoped_endpoint
        linkPath body scopeId options rs unresolved U pre payload code rest :
  halService_getEndpoint linkPath = unresolved ++ [U] ->
  Forall (fun h => h = "") unresolved ->
  U <> "" -> scopeId <> "" ->
  rdbService_buildFromRequestUUID (nextId rs)
  = pre ++ Remote.Success payload code :: rest ->
  Forall pending pre ->
  let run := post linkPath body (Some scopeId) options rs in
  let request :=
    TaskPostRequest (nextId rs) (U ++ "/" ++ scopeId)%string body options in
  configured (snd run) = configured rs ++ [request]
  /\ method request = POST
  /\ href request = (U ++ "/" ++ scopeId)%string
  /\ fst run = [mkProcessTaskResponse true code None].
Proof.
  intros E Hun HU Hs Eg Hpre run request. subst run request.
  rewrite postToEndpoint_run.
  rewrite (postUrls_resolved _ (Some scopeId) _ _ E Hun HU).
  unfold getEndpointByIDHref, isNotEmpty.
  apply isNotEmptyString_true in Hs. rewrite Hs. simpl.
  rewrite (fetchRequest_success _ _ _ _ _ Eg Hpre). auto.
Qed.

(** C10. [getEndpointByIDHref] returns the endpoint itself, without a
    trailing slash, when the identifier is missing or empty; so [deleteById]
    with an empty [scopeId] submits its DELETE request to the bare endpoint
    URL the resolver delivered. *)
Theorem empty_id_keeps_bare_endpoint linkPath options rs unresolved U :
  halService_getEndpoint (orElse (Some linkPath) this_linkPath)
  = unresolved ++ [U] ->
  Forall (fun h => h = "") unresolved ->
  U <> "" ->
  (forall endpoint,
      getEndpointByIDHref endpoint None = endpoint
      /\ getEndpointByIDHref endpoint (Some "") = endpoint)
  /\ configured (snd (delete linkPath "" options rs))
     = configured rs ++ [TaskDeleteRequest (nextId rs) U None options]
  /\ fst (delete linkPath "" options rs) = fetch (nextId rs).
Proof.
  intros E Hun HU. split; [intros endpoint; split; reflexivity|].
  rewrite deleteById_run.
  rewrite (getEndpointById_resolved "" _ _ _ E Hun HU). simpl.
  now rewrite app_nil_r.
Qed.

End TasksFacts.

Section TaskScenarios.

Import Rx Requests Tasks Scenarios.

Lemma task_outcome_reduces_response_witness :
  fst (postToEndpoint halClaimtask gatewayOk "claimtask" (Some "{}")
                      (Some "123") None freshRequestService)
  = [mkProcessTaskResponse true (Some 200) None]
  /\ fst (deleteById halClaimtask gatewayRejects "claimedtasks" "claimtask"
                     "123" None freshRequestService)
     = [mkProcessTaskResponse false (Some 422) (Some "Unprocessable Entity")].
Proof.
  split.
  - destruct (task_outcome_reduces_response
                unit halClaimtask gatewayOk "claimedtasks" "claimtask"
                (Some "{}") (Some "123") "123" None freshRequestService
                [Remote.RequestPending; Remote.ResponsePending]
                (Remote.Success tt (Some 200)) [] eq_refl
                ltac:(repeat constructor)) as [Hok _].
    destruct (Hok tt (Some 200) eq_refl) as (_ & Hposted & _).
    exact Hposted.
  - destruct (task_outcome_reduces_response
                unit halClaimtask gatewayRejects "claimedtasks" "claimtask"
                (Some "{}") (Some "123") "123" None freshRequestService
                [Remote.RequestPending]
                (Remote.Failure (Some 422) (Some "Unprocessable Entity")) []
                eq_refl ltac:(repeat constructor)) as [_ Hko].
    destruct (Hko (Some 422) (Some "Unprocessable Entity") eq_refl)
      as (_ & _ & Hdeleted).
    exact Hdeleted.
Defined.

Lemma empty_endpoint_stalls_witness :
  postToEndpoint halClaimtask gatewayOk "pooltask" (Some "{}") (Some "123")
                 None freshRequestService
  = ([], mkRequestService 1 [])
  /\ exists later outcomes,
      configured (snd (postToEndpoint halClaimtask gatewayOk "claimtask"
                                      (Some "{}") (Some "123") None
                                      freshRequestService))
      = TaskPostRequest 0 "https://api/claimtask/123" (Some "{}") None :: later
      /\ fst (postToEndpoint halClaimtask gatewayOk "claimtask" (Some "{}")
                             (Some "123") None freshRequestService)
         = mkProcessTaskResponse true (Some 200) None :: outcomes.
Proof.
  split.
  - destruct (empty_endpoint_stalls
                unit halClaimtask gatewayOk "claimedtasks" "pooltask"
                (Some "{}") (Some "123") "123" None freshRequestService)
      as (Hpost & _).
    apply Hpost. repeat constructor.
  - destruct (empty_endpoint_stalls
                unit halClaimtask gatewayOk "claimedtasks" "claimtask"
                (Some "{}") (Some "123") "123" None freshRequestService)
      as (_ & _ & Hfirst & _).
    apply (Hfirst [""] "https://api/claimtask" []);
      [reflexivity | repeat constructor | discriminate].
Defined.

Lemma post_targets_scoped_endpoint_witness :
  let run := postToEndpoint halClaimtask gatewayOk "claimtask" (Some "{}")
                            (Some "123") None freshRequestService in
  configured (snd run)
  = [TaskPostRequest 0 "https://api/claimtask/123" (Some "{}") None]
  /\ fst run = [mkProcessTaskResponse true (Some 200) None].
Proof.
  destruct (post_targets_scoped_endpoint
              unit halClaimtask gatewayOk "claimtask" (Some "{}") "123" None
              freshRequestService [""] "https://api/claimtask"
              [Remote.RequestPending; Remote.ResponsePending] tt (Some 200) []
              eq_refl ltac:(repeat constructor) ltac:(discriminate)
              ltac:(discriminate) eq_refl ltac:(repeat constructor))
    as (Hconfigured & _ & _ & Houtcome).
  split; [exact Hconfigured | exact Houtcome].
Defined.

Lemma empty_id_keeps_bare_endpoint_witness :
  configured (snd (deleteById halClaimtask gatewayOk "claimedtasks"
                              "claimtask" "" None freshRequestService))
  = [TaskDeleteRequest 0 "https://api/claimtask" None None].
Proof.
  destruct (empty_id_keeps_bare_endpoint
              unit halClaimtask gatewayOk "claimedtasks" "claimtask" None
              freshRequestService [""] "https://api/claimtask"
              eq_refl ltac:(repeat constructor) ltac:(discriminate))
    as (_ & Hconfigured & _).
  exact Hconfigured.
Defined.

End TaskScenarios.

(* ------------------------------------------------------------------------- *)
(** ** Task search *)

Section SearchFacts.

Import Rx Tasks.

Variables FindListOptions FollowLinkConfig T : Type.
Variable getSearchByHref
  : string -> FindListOptions -> list FollowLinkConfig -> Observable string.
Variable findByHref : string -> Observable (Remote.RemoteData T).

(** Whatever [hasValue] accepts: [searchTask] fetches by the first accepted
    candidate and by no other; while no candidate is accepted nothing is
    fetched. *)
Lemma searchTask_first_accepted (hasValue : string -> bool)
      searchMethod options linksToFollow :
  (forall skipped href later,
      getSearchByHref searchMethod options linksToFollow
      = skipped ++ href :: later ->
      Forall (fun h => hasValue h = false) skipped -> hasValue href = true ->
      searchTaskHref hasValue getSearchByHref searchMethod options
                     linksToFollow
      = [href]
      /\ searchTask hasValue getSearchByHref findByHref searchMethod options
                    linksToFollow
         = findByHref href)
  /\ (Forall (fun h => hasValue h = false)
             (getSearchByHref searchMethod options linksToFollow) ->
      searchTaskHref hasValue getSearchByHref searchMethod options
                     linksToFollow
      = []
      /\ searchTask hasValue getSearchByHref findByHref searchMethod options
                    linksToFollow
         = []).
Proof.
  split.
  - intros skipped href later E Hskip Hhref.
    assert (searchTaskHref hasValue getSearchByHref searchMethod options
                           linksToFollow
            = [href]) as Hfind.
    { unfold searchTaskHref. rewrite E. now apply find_first. }
    split; [exact Hfind|].
    unfold searchTask, switchMap. rewrite Hfind. simpl. apply app_nil_r.
  - intros Hall.
    assert (searchTaskHref hasValue getSearchByHref searchMethod options
                           linksToFollow
            = []) as Hfind.
    { unfold searchTaskHref. now apply find_none. }
    split; [exact Hfind|].
    unfold searchTask, switchMap. now rewrite Hfind.
Qed.

(** The outcome of the search on an empty first candidate is decided by
    [hasValue] alone: a [hasValue] that accepts the empty string makes
    [searchTask] fetch by it. *)
Lemma searchTask_empty_candidate (hasValue : string -> bool)
      searchMethod options linksToFollow later :
  getSearchByHref searchMethod options linksToFollow = "" :: later ->
  hasValue "" = true ->
  searchTask hasValue getSearchByHref findByHref searchMethod options
             linksToFollow
  = findByHref "".
Proof.
  intros E Hempty.
  destruct (searchTask_first_accepted hasValue searchMethod options
                                      linksToFollow) as [Hfirst _].
  now destruct (Hfirst [] "" later E (Forall_nil _) Hempty).
Qed.

(** C9. With [hasValue] read from the spec as "non-empty", [searchTask]
    waits for the first non-empty href among the candidates of the
    search-href resolution, skipping empty-string candidates, and fetches by
    that href only: its result is the stream [findByHref] returns for it.
    While every candidate is empty nothing is fetched. *)
Theorem searchTask_fetches_first_href searchMethod options linksToFollow :
  (forall skipped href later,
      getSearchByHref searchMethod options linksToFollow
      = skipped ++ href :: later ->
      Forall (fun h => h = "") skipped -> href <> "" ->
      searchTaskHref EmptyUtil.hasValue getSearchByHref searchMethod options
                     linksToFollow
      = [href]
      /\ searchTask EmptyUtil.hasValue getSearchByHref findByHref
                    searchMethod options linksToFollow
         = findByHref href)
  /\ (Forall (fun h => h = "")
             (getSearchByHref searchMethod options linksToFollow) ->
      searchTaskHref EmptyUtil.hasValue getSearchByHref searchMethod options
                     linksToFollow
      = []
      /\ searchTask EmptyUtil.hasValue getSearchByHref findByHref
                    searchMethod options linksToFollow
         = []).
Proof.
  destruct (searchTask_first_accepted EmptyUtil.hasValue searchMethod options
                                      linksToFollow) as [Hfirst Hnone].
  split.
  - intros skipped href later E Hskip Hhref.
    apply (Hfirst skipped href later E).
    + now apply all_empty_rejected.
    + now apply isNotEmptyString_true.
  - intros Hall. apply Hnone. now apply all_empty_rejected.
Qed.

End SearchFacts.

Lemma searchTask_fetches_first_href_witness :
  Tasks.searchTask EmptyUtil.hasValue Scenarios.searchHrefs
                   Scenarios.findTaskByHref "findByItem" tt []
  = [Remote.ResponsePending;
     Remote.Success "https://api/pooltasks/search/findByItem" (Some 200)]
  /\ Tasks.searchTask EmptyUtil.hasValue Scenarios.searchHrefsUnresolved
                      Scenarios.findTaskByHref "findByItem" tt []
     = [].
Proof.
  split.
  - destruct (searchTask_fetches_first_href
                unit unit string Scenarios.searchHrefs Scenarios.findTaskByHref
                "findByItem" tt []) as [Hfirst _].
    destruct (Hfirst [""] "https://api/pooltasks/search/findByItem"
                     ["https://api/pooltasks/search/other"]
                     eq_refl ltac:(repeat constructor) ltac:(discriminate))
      as [_ Hfetch].
    exact Hfetch.
  - destruct (searchTask_fetches_first_href
                unit unit string Scenarios.searchHrefsUnresolved
                Scenarios.findTaskByHref "findByItem" tt []) as [_ Hnone].
    destruct (Hnone ltac:(repeat constructor)) as [_ Hfetch].
    exact Hfetch.
Defined.

(* ------------------------------------------------------------------------- *)
(** ** The vocabulary entry pipeline *)

Lemma newEntriesRequests_spec (hrefs : list string)
      (rs : Requests.RequestService) :
  List.map Requests.href (fst (Vocabularies.newEntriesRequests hrefs rs))
  = hrefs
  /\ Forall (fun r => Requests.method r = Requests.GET)
            (fst (Vocabularies.newEntriesRequests hrefs rs))
  /\ Requests.configured (snd (Vocabularies.newEntriesRequests hrefs rs))
     = Requests.configured rs.
Proof.
  revert rs. induction hrefs as [|h hrefs IH]; intros rs; simpl.
  - auto.
  - specialize (IH (Requests.mkRequestService (S (Requests.nextId rs))
                                              (Requests.configured rs))).
    destruct (Vocabularies.newEntriesRequests hrefs _) as [reqs rs2].
    simpl in *. destruct IH as (Hh & Hm & Hc).
    repeat split; [now rewrite Hh | now constructor | exact Hc].
Qed.

Lemma entriesRequestsFrom_href (next : Requests.RequestId)
      (hrefs : list string) :
  List.map Requests.href (Observations.entriesRequestsFrom next hrefs) = hrefs.
Proof.
  revert next. induction hrefs as [|h hrefs IH]; intros next; simpl; auto.
  now rewrite IH.
Qed.

Lemma entriesRequestsFrom_uuid (next : Requests.RequestId)
      (hrefs : list string) :
  List.map Requests.uuid (Observations.entriesRequestsFrom next hrefs)
  = seq next (length hrefs).
Proof.
  revert next. induction hrefs as [|h hrefs IH]; intros next; simpl; auto.
  now rewrite IH.
Qed.

Lemma entriesRequestsFrom_method (next : Requests.RequestId)
      (hrefs : list string) :
  Forall (fun r => Requests.method r = Requests.GET)
         (Observations.entriesRequestsFrom next hrefs).
Proof.
  revert next. induction hrefs as [|h hrefs IH]; intros next; simpl; auto.
Qed.

Lemma newEntriesRequests_run (hrefs : list string)
      (rs : Requests.RequestService) :
  Vocabularies.newEntriesRequests hrefs rs
  = (Observations.entriesRequestsFrom (Requests.nextId rs) hrefs,
     Requests.mkRequestService (Requests.nextId rs + length hrefs)
                               (Requests.configured rs)).
Proof.
  revert rs. induction hrefs as [|h hrefs IH]; intros [next log]; simpl.
  - now rewrite Nat.add_0_r.
  - rewrite IH. simpl. now rewrite Nat.add_succ_r.
Qed.

Lemma subscribeEntriesRequests_run (hrefs : list string)
      (rs : Requests.RequestService) :
  Vocabularies.subscribeEntriesRequests hrefs rs
  = (Observations.entriesRequestsFrom (Requests.nextId rs) hrefs,
     Requests.mkRequestService
       (Requests.nextId rs + length hrefs)
       (Requests.configured rs
        ++ Observations.entriesRequestsFrom (Requests.nextId rs) hrefs)).
Proof.
  unfold Vocabularies.subscribeEntriesRequests, Requests.tapConfigure.
  rewrite newEntriesRequests_run. f_equal.
  set (reqs := Observations.entriesRequestsFrom _ _).
  set (rs1 := Requests.mkRequestService _ _).
  pose proof (configured_fold reqs rs1) as Hc.
  pose proof (nextId_fold reqs rs1) as Hn.
  destruct (fold_left Requests.configure reqs rs1) as [n c].
  simpl in *. now subst.
Qed.

(** The request service after [getVocabularyEntriesFor]: the requests of the
    subscription for [requestEntry$], then those of the subscription for
    [payload$]. *)
Lemma getVocabularyEntriesFor_state
      {RequestEntry : Type}
      (getRequestFromRequestHref
         : Rx.Observable string -> Rx.Observable RequestEntry)
      (filterSuccessfulResponses
         : Rx.Observable RequestEntry ->
           Rx.Observable Vocabularies.GenericSuccessResponse)
      (toRemoteDataObservable
         : Rx.Observable RequestEntry ->
           Rx.Observable (Vocabularies.PaginatedList
                            Vocabularies.VocabularyEntry) ->
           Rx.Observable
             (Remote.RemoteData
                (Vocabularies.PaginatedList Vocabularies.VocabularyEntry)))
      (hrefs : list string) (rs : Requests.RequestService) :
  snd (Vocabularies.getVocabularyEntriesFor
         getRequestFromRequestHref filterSuccessfulResponses
         toRemoteDataObservable hrefs rs)
  = Requests.mkRequestService
      (Requests.nextId rs + length hrefs + length hrefs)
      (Requests.configured rs
       ++ Observations.entriesRequestsFrom (Requests.nextId rs) hrefs
       ++ Observations.entriesRequestsFrom
            (Requests.nextId rs + length hrefs) hrefs).
Proof.
  unfold Vocabularies.getVocabularyEntriesFor,
    Vocabularies.toRDPaginatedVocabularyEntriesCold.
  rewrite !subscribeEntriesRequests_run. simpl. now rewrite <- app_assoc.
Qed.

(** What [getVocabularyEntriesFor] emits is what
    [toRDPaginatedVocabularyEntries] makes of the requests for the hrefs:
    the two subscriptions differ in the identifiers only. *)
Lemma getVocabularyEntriesFor_emits
      {RequestEntry : Type}
      (getRequestFromRequestHref
         : Rx.Observable string -> Rx.Observable RequestEntry)
      (filterSuccessfulResponses
         : Rx.Observable RequestEntry ->
           Rx.Observable Vocabularies.GenericSuccessResponse)
      (toRemoteDataObservable
         : Rx.Observable RequestEntry ->
           Rx.Observable (Vocabularies.PaginatedList
                            Vocabularies.VocabularyEntry) ->
           Rx.Observable
             (Remote.RemoteData
                (Vocabularies.PaginatedList Vocabularies.VocabularyEntry)))
      (hrefs : list string) (rs : Requests.RequestService) :
  fst (Vocabularies.getVocabularyEntriesFor
         getRequestFromRequestHref filterSuccessfulResponses
         toRemoteDataObservable hrefs rs)
  = Vocabularies.toRDPaginatedVocabularyEntries
      getRequestFromRequestHref filterSuccessfulResponses
      toRemoteDataObservable
      (Observations.entriesRequestsFrom (Requests.nextId rs) hrefs).
Proof.
  unfold Vocabularies.getVocabularyEntriesFor,
    Vocabularies.toRDPaginatedVocabularyEntriesCold,
    Vocabularies.toRDPaginatedVocabularyEntries.
  rewrite !subscribeEntriesRequests_run. simpl. unfold Rx.map.
  now rewrite !entriesRequestsFrom_href.
Qed.


Lemma firstSucceeded_at_most_one {T} (src : list (Remote.RemoteData T)) :
  length (Remote.getFirstSucceededRemoteDataPayload src) <= 1.
Proof.
  unfold Remote.getFirstSucceededRemoteDataPayload,
    Remote.getRemoteDataPayload, Rx.mergeMap, Rx.find.
  destruct (List.find Remote.hasSucceeded src) as [[| |p c|c m]|];
    simpl; lia.
Qed.

Lemma firstSucceeded_first {T} (pre : list (Remote.RemoteData T)) p c rest :
  Forall (fun rd => Remote.hasSucceeded rd = false) pre ->
  Remote.getFirstSucceededRemoteDataPayload (pre ++ Remote.Success p c :: rest)
  = [p].
Proof.
  intros Hpre. unfold Remote.getFirstSucceededRemoteDataPayload.
  rewrite find_first; auto.
Qed.





Lemma nodup_agreeing (l1 l2 : list string) :
  length l1 <= 1 -> length l2 <= 1 ->
  (forall a b, In a l1 -> In b l2 -> a = b) ->
  length (nodup string_dec (l1 ++ l2)) <= 1.
Proof.
  destruct l1 as [|a [|? ?]], l2 as [|b [|? ?]]; simpl; intros L1 L2 H;
    try lia.
  rewrite (H a b) by auto.
  destruct (string_dec b b) as [_|ne]; simpl; [lia|congruence].
Qed.

Section VocabularyFacts.

Import Rx EmptyUtil Requests Vocabularies.

Variable RequestEntry : Type.
Variable buildHrefFromFindOptions : string -> VocabularyFindOptions -> string.
Variable getRequestFromRequestHref
  : Observable string -> Observable RequestEntry.
Variable filterSuccessfulResponses
  : Observable RequestEntry -> Observable GenericSuccessResponse.
Variable toRemoteDataObservable
  : Observable RequestEntry -> Observable (PaginatedList VocabularyEntry) ->
    Observable (Remote.RemoteData (PaginatedList VocabularyEntry)).
Variable newPageInfo : PageInfo.

Local Notation "'entriesFor'" :=
  (getVocabularyEntriesFor getRequestFromRequestHref filterSuccessfulResponses
                           toRemoteDataObservable).
Local Notation "'hrefsOf' finder" :=
  (entriesHref finder buildHrefFromFindOptions) (at level 10).

Lemma entriesFor_configured hrefs rs :
  exists issued,
    configured (snd (entriesFor hrefs rs)) = configured rs ++ issued
    /\ List.map Requests.href issued = hrefs ++ hrefs
    /\ Forall (fun r => method r = GET) issued.
Proof.
  rewrite getVocabularyEntriesFor_state. simpl.
  eexists. split; [reflexivity|].
  rewrite map_app, !entriesRequestsFrom_href. split; [reflexivity|].
  apply Forall_app. split; apply entriesRequestsFrom_method.
Qed.

Lemma entriesHref_at_most_one finder vocabularyOptions options :
  length (hrefsOf finder vocabularyOptions options) <= 1.
Proof.
  unfold entriesHref, isNotEmptyOperator.
  etransitivity; [apply distinct_length|].
  unfold filter. etransitivity; [apply filter_length_le|].
  unfold map. rewrite length_map. apply firstSucceeded_at_most_one.
Qed.

Lemma entriesHref_built finder vocabularyOptions options h :
  In h (hrefsOf finder vocabularyOptions options) ->
  exists vocabulary,
    In vocabulary (Remote.getFirstSucceededRemoteDataPayload
                     (finder (name vocabularyOptions)))
    /\ h = buildHrefFromFindOptions (href (entries (_links vocabulary)))
                                    options.
Proof.
  unfold entriesHref, isNotEmptyOperator. intros Hin.
  rewrite distinct_short in Hin.
  - unfold filter, map in Hin. apply filter_In in Hin as [Hin _].
    apply in_map_iff in Hin as (v & <- & Hv). eauto.
  - unfold filter. etransitivity; [apply filter_length_le|].
    unfold map. rewrite length_map. apply firstSucceeded_at_most_one.
Qed.


Lemma listPayload_first (pre : list (Remote.RemoteData
                                       (PaginatedList VocabularyEntry)))
      entriesList code rest :
  Forall (fun rd => Remote.hasSucceeded rd = false) pre ->
  getFirstSucceededRemoteListPayload
    (pre ++ Remote.Success entriesList code :: rest)
  = [page entriesList].
Proof.
  intros Hpre. unfold getFirstSucceededRemoteListPayload.
  now rewrite firstSucceeded_first.
Qed.


(** The single-entry lookups in terms of the list pipeline they run. *)
Lemma getVocabularyEntryByValue_run finder value vocabularyOptions rs :
  getVocabularyEntryByValue
    finder buildHrefFromFindOptions getRequestFromRequestHref
    filterSuccessfulResponses toRemoteDataObservable newPageInfo
    value vocabularyOptions rs
  = (map firstOrNull
         (getFirstSucceededRemoteListPayload
            (fst (getVocabularyEntriesByValue
                    finder buildHrefFromFindOptions getRequestFromRequestHref
                    filterSuccessfulResponses toRemoteDataObservable
                    value true vocabularyOptions newPageInfo rs))),
     snd (getVocabularyEntriesByValue
            finder buildHrefFromFindOptions getRequestFromRequestHref
            filterSuccessfulResponses toRemoteDataObservable
            value true vocabularyOptions newPageInfo rs)).
Proof.
  unfold getVocabularyEntryByValue.
  now destruct (getVocabularyEntriesByValue _ _ _ _ _ _ _ _ _ _).
Qed.

Lemma getVocabularyEntryByID_run finder ID vocabularyOptions rs :
  getVocabularyEntryByID
    finder buildHrefFromFindOptions getRequestFromRequestHref
    filterSuccessfulResponses toRemoteDataObservable newPageInfo
    ID vocabularyOptions rs
  = (map firstOrNull
         (getFirstSucceededRemoteListPayload
            (fst (entriesFor
                    (hrefsOf finder vocabularyOptions
                       (mkVocabularyFindOptions
                          None None None (Some ID)
                          (elementsPerPage newPageInfo)
                          (currentPage newPageInfo)))
                    rs))),
     snd (entriesFor
            (hrefsOf finder vocabularyOptions
               (mkVocabularyFindOptions
                  None None None (Some ID)
                  (elementsPerPage newPageInfo) (currentPage newPageInfo)))
            rs)).
Proof.
  unfold getVocabularyEntryByID.
  now destruct (getVocabularyEntriesFor _ _ _ _ _).
Qed.

(** C8. [getVocabularyEntryByValue] runs [getVocabularyEntriesByValue] with
    [exact = true] and a default [PageInfo], [getVocabularyEntryByID] runs the
    same pipeline filtered by ID; each emits the first element of the first
    successfully fetched entry list when that list is non-empty, and [null]
    when it is empty. *)
Theorem single_entry_lookup_first_or_null
        finder value ID vocabularyOptions rs :
  let byValue :=
    fst (getVocabularyEntriesByValue
           finder buildHrefFromFindOptions getRequestFromRequestHref
           filterSuccessfulResponses toRemoteDataObservable
           value true vocabularyOptions newPageInfo rs) in
  let byID :=
    fst (entriesFor
           (hrefsOf finder vocabularyOptions
              (mkVocabularyFindOptions
                 None None None (Some ID)
                 (elementsPerPage newPageInfo) (currentPage newPageInfo)))
           rs) in
  let entryByValue :=
    fst (getVocabularyEntryByValue
           finder buildHrefFromFindOptions getRequestFromRequestHref
           filterSuccessfulResponses toRemoteDataObservable newPageInfo
           value vocabularyOptions rs) in
  let entryByID :=
    fst (getVocabularyEntryByID
           finder buildHrefFromFindOptions getRequestFromRequestHref
           filterSuccessfulResponses toRemoteDataObservable newPageInfo
           ID vocabularyOptions rs) in
  (forall pre entriesList code rest,
      byValue = pre ++ Remote.Success entriesList code :: rest ->
      Forall (fun rd => Remote.hasSucceeded rd = false) pre ->
      (forall entry others,
          page entriesList = Some (entry :: others) ->
          entryByValue = [Some entry])
      /\ (page entriesList = Some [] -> entryByValue = [None]))
  /\ (forall pre entriesList code rest,
      byID = pre ++ Remote.Success entriesList code :: rest ->
      Forall (fun rd => Remote.hasSucceeded rd = false) pre ->
      (forall entry others,
          page entriesList = Some (entry :: others) ->
          entryByID = [Some entry])
      /\ (page entriesList = Some [] -> entryByID = [None])).
Proof.
  intros byValue byID entryByValue entryByID.
  subst entryByValue entryByID.
  rewrite getVocabularyEntryByValue_run, getVocabularyEntryByID_run.
  unfold fst at 1 3. fold byValue byID.
  split; intros pre entriesList code rest E Hpre; rewrite E;
    rewrite listPayload_first by assumption;
    (split; [intros entry others Hp | intros Hp]); simpl; now rewrite Hp.
Qed.


End VocabularyFacts.

Section VocabularyScenarios.

Import Rx Requests Vocabularies Scenarios.

Lemma single_entry_lookup_first_or_null_witness :
  fst (getVocabularyEntryByID
         findVocabulary buildHref requestEntries (respondsWith [entry42])
         remoteDataOf defaultPageInfo "42" srsc freshRequestService)
  = [Some entry42]
  /\ fst (getVocabularyEntryByValue
            findVocabulary buildHref requestEntries (respondsWith [])
            remoteDataOf defaultPageInfo "Physics" srsc freshRequestService)
     = [None].
Proof.
  split.
  - destruct (single_entry_lookup_first_or_null
                string buildHref requestEntries (respondsWith [entry42])
                remoteDataOf defaultPageInfo findVocabulary "Physics" "42"
                srsc freshRequestService) as [_ HbyID].
    destruct (HbyID [Remote.ResponsePending]
                    (mkPaginatedList
                       (mkPageInfo (Some 20) (Some 1) (Some 1) (Some 1))
                       (Some [entry42]))
                    (Some 200) [] eq_refl ltac:(repeat constructor))
      as [Hfirst _].
    exact (Hfirst entry42 [] eq_refl).
  - destruct (single_entry_lookup_first_or_null
                string buildHref requestEntries (respondsWith [])
                remoteDataOf defaultPageInfo findVocabulary "Physics" "42"
                srsc freshRequestService) as [HbyValue _].
    destruct (HbyValue [Remote.ResponsePending]
                       (mkPaginatedList
                          (mkPageInfo (Some 20) (Some 1) (Some 0) (Some 1))
                          (Some []))
                       (Some 200) [] eq_refl ltac:(repeat constructor))
      as [_ Hnull].
    exact (Hnull eq_refl).
Defined.

(** The scenario of the spec: [getVocabularyEntriesByValue("foo", true,
    opts, page1)] twice. *)
Example repeated_entries_lookup_scenario :
  let page1 := mkPageInfo (Some 20) (Some 1) None None in
  let first :=
    getVocabularyEntriesByValue
      findVocabulary buildHref requestEntries (respondsWith [entry42])
      remoteDataOf "foo" true srsc page1 freshRequestService in
  let second :=
    getVocabularyEntriesByValue
      findVocabulary buildHref requestEntries (respondsWith [entry42])
      remoteDataOf "foo" true srsc page1 (snd first) in
  configured (snd second)
  = [VocabularyEntriesRequest
       0 "https://api/vocabularies/srsc/entries?filter=foo&exact=true";
     VocabularyEntriesRequest
       1 "https://api/vocabularies/srsc/entries?filter=foo&exact=true";
     VocabularyEntriesRequest
       2 "https://api/vocabularies/srsc/entries?filter=foo&exact=true";
     VocabularyEntriesRequest
       3 "https://api/vocabularies/srsc/entries?filter=foo&exact=true"].
Proof. reflexivity. Qed.


End VocabularyScenarios.

(* ------------------------------------------------------------------------- *)
(** ** Gateway failures *)

Section FailureFacts.

Import Rx EmptyUtil Requests.

Variable Any : Type.
Variable halService_getEndpoint : string -> Observable string.
Variable rdbService_buildFromRequestUUID
  : RequestId -> Observable (Remote.RemoteData Any).
Variable this_linkPath : string.

Variable RequestEntry : Type.
Variable findVocabularyById
  : string -> Observable (Remote.RemoteData Vocabularies.Vocabulary).
Variable buildHrefFromFindOptions
  : string -> Vocabularies.VocabularyFindOptions -> string.
Variable getRequestFromRequestHref
  : Observable string -> Observable RequestEntry.
Variable filterSuccessfulResponses
  : Observable RequestEntry -> Observable Vocabularies.GenericSuccessResponse.
Variable toRemoteDataObservable
  : Observable RequestEntry ->
    Observable (Vocabularies.PaginatedList Vocabularies.VocabularyEntry) ->
    Observable (Remote.RemoteData
                  (Vocabularies.PaginatedList Vocabularies.VocabularyEntry)).
Variable newPageInfo : Vocabularies.PageInfo.

Local Notation "'post'" :=
  (Tasks.postToEndpoint halService_getEndpoint rdbService_buildFromRequestUUID).
Local Notation "'delete'" :=
  (Tasks.deleteById halService_getEndpoint rdbService_buildFromRequestUUID
                    this_linkPath).
Local Notation "'entriesByValue'" :=
  (Vocabularies.getVocabularyEntriesByValue
     findVocabularyById buildHrefFromFindOptions getRequestFromRequestHref
     filterSuccessfulResponses toRemoteDataObservable).
Local Notation "'entriesFor'" :=
  (Vocabularies.getVocabularyEntriesFor
     getRequestFromRequestHref filterSuccessfulResponses
     toRemoteDataObservable).
Local Notation "'entryByValue'" :=
  (Vocabularies.getVocabularyEntryByValue
     findVocabularyById buildHrefFromFindOptions getRequestFromRequestHref
     filterSuccessfulResponses toRemoteDataObservable newPageInfo).
Local Notation "'entryByID'" :=
  (Vocabularies.getVocabularyEntryByID
     findVocabularyById buildHrefFromFindOptions getRequestFromRequestHref
     filterSuccessfulResponses toRemoteDataObservable newPageInfo).


End FailureFacts.

Section FailureScenarios.

Import Rx Requests Vocabularies Scenarios.



End FailureScenarios.

(* ------------------------------------------------------------------------- *)
(** ** The reloadable action component *)

Section ReloadableFacts.

Import Rx Reloadable.

Variable reloadObjectExecution : Observable Reloaded.
Variable getSearchResultFor : string -> string.

Local Notation "'delivered'" :=
  (_reloadObject reloadObjectExecution getSearchResultFor).
Local Notation "'run' res" :=
  (fst (startActionExecution [res] reloadObjectExecution getSearchResultFor))
    (at level 10).

Lemma handled_with_object o :
  handleReloadableActionResponse true (Some o)
  = [ProcessCompletedEmit true o; successNotification].
Proof. reflexivity. Qed.

Lemma handled_without_object :
  handleReloadableActionResponse true None = [Reload; successNotification].
Proof. reflexivity. Qed.

Lemma handled_failure o :
  handleReloadableActionResponse false o = [errorNotification].
Proof. reflexivity. Qed.

(** The effects of a run with a single action outcome. *)
Lemma run_succeeded res :
  Tasks.hasSucceeded res = true ->
  run res
  = ProcessingNext true
    :: flat_map (fun o => [ProcessingNext false; ProcessCompletedEmit true o;
                           successNotification])
                delivered.
Proof.
  intros Hok. unfold startActionExecution, onActionResponse; simpl.
  rewrite Hok; simpl. now rewrite app_nil_r.
Qed.

Lemma run_failed res :
  Tasks.hasSucceeded res = false ->
  run res = [ProcessingNext true; ProcessingNext false; errorNotification].
Proof.
  intros Hko. unfold startActionExecution, onActionResponse; simpl.
  now rewrite Hko.
Qed.

Lemma notifications_per_object (objs : list DSpaceObject) :
  notifications
    (flat_map (fun o => [ProcessingNext false; ProcessCompletedEmit true o;
                         successNotification]) objs)
  = repeat successNotification (length objs).
Proof. induction objs as [|o objs IH]; simpl; [|rewrite <- IH]; auto. Qed.

Lemma action_results_per_object (objs : list DSpaceObject) :
  List.filter isActionResult
    (flat_map (fun o => [ProcessingNext false; ProcessCompletedEmit true o;
                         successNotification]) objs)
  = List.map (ProcessCompletedEmit true) objs.
Proof. induction objs as [|o objs IH]; simpl; [|rewrite <- IH]; auto. Qed.

Lemma no_reload_per_object (objs : list DSpaceObject) :
  List.filter isReload
    (flat_map (fun o => [ProcessingNext false; ProcessCompletedEmit true o;
                         successNotification]) objs)
  = [].
Proof. induction objs as [|o objs IH]; simpl; auto. Qed.

Lemma no_error_per_object (objs : list DSpaceObject) :
  List.filter isErrorNotification
    (flat_map (fun o => [ProcessingNext false; ProcessCompletedEmit true o;
                         successNotification]) objs)
  = [].
Proof. induction objs as [|o objs IH]; simpl; auto. Qed.

End ReloadableFacts.

Section ReloadableScenarios.

Import Rx Reloadable Scenarios.

(** C1. The failing run: the action succeeded and the [RemoteData] of the
    reload failed.  [startActionExecution] then shows no notification at all
    and leaves [processing$] true, where the claim asks for exactly one
    notification of the success type.  The handler itself would show that
    notification when called without an object, and a failed action does get
    its one error notification. *)
Theorem failed_reload_shows_no_notification :
  let run :=
    fst (startActionExecution [actionSucceeded] reloadFails searchResultFor) in
  run = [ProcessingNext true]
  /\ notifications run = []
  /\ Observations.processingAfter false run = true
  /\ notifications (handleReloadableActionResponse true None)
     = [successNotification]
  /\ notifications
       (fst (startActionExecution [actionFailed] reloadFails searchResultFor))
     = [errorNotification].
Proof. repeat split; reflexivity. Qed.

(** C6. The same failing run: the action succeeded and the reload produced
    no object.  [startActionExecution] triggers no generic reload (and emits
    no [ActionResult]), where the claim asks for the generic reload.  The
    handler has the branch for it: called with a succeeded result and no
    object it triggers the generic reload and emits no [ActionResult]; called
    with an object it emits exactly one [ActionResult] and no generic
    reload. *)
Theorem failed_reload_skips_generic_reload :
  let run :=
    fst (startActionExecution [actionSucceeded] reloadFails searchResultFor) in
  _reloadObject reloadFails searchResultFor = []
  /\ List.filter isReload run = []
  /\ List.filter isActionResult run = []
  /\ handleReloadableActionResponse true None = [Reload; successNotification]
  /\ (forall o,
         handleReloadableActionResponse true (Some o)
         = [ProcessCompletedEmit true o; successNotification]).
Proof. repeat split; reflexivity. Qed.

(** A reload that succeeds, and one that emits twice, evaluated. *)
Example notifications_of_runs :
  notifications
    (fst (startActionExecution [actionSucceeded] reloadSucceeds
                               searchResultFor))
  = [successNotification]
  /\ notifications
       (fst (startActionExecution [actionSucceeded] reloadEmitsTwice
                                  searchResultFor))
     = [successNotification; successNotification].
Proof. split; reflexivity. Qed.

End ReloadableScenarios.

(* ========================================================================= *)
(** * Further properties of the three services *)

(* ------------------------------------------------------------------------- *)
(** ** Strings and traces *)

Lemma list_ascii_append (a b : string) :
  list_ascii_of_string (a ++ b)
  = list_ascii_of_string a ++ list_ascii_of_string b.
Proof. induction a as [|c a IH]; simpl; congruence. Qed.

Lemma list_ascii_injective (a b : string) :
  list_ascii_of_string a = list_ascii_of_string b -> a = b.
Proof.
  intros H. rewrite <- (string_of_list_ascii_of_string a).
  rewrite <- (string_of_list_ascii_of_string b). now rewrite H.
Qed.

Lemma append_inv_tail (a b t : string) :
  (a ++ t)%string = (b ++ t)%string -> a = b.
Proof.
  intros H. apply list_ascii_injective.
  apply (f_equal list_ascii_of_string) in H.
  rewrite !list_ascii_append in H. now apply app_inv_tail in H.
Qed.

Lemma append_inv_head (s a b : string) :
  (s ++ a)%string = (s ++ b)%string -> a = b.
Proof. induction s as [|c s IH]; simpl; intros H; [|injection H]; auto. Qed.

Lemma append_length (a b : string) :
  String.length (a ++ b) = String.length a + String.length b.
Proof. induction a as [|c a IH]; simpl; congruence. Qed.

Lemma append_grows (a b : string) : b <> "" -> (a ++ b)%string <> a.
Proof.
  intros Hb H. apply (f_equal String.length) in H.
  rewrite append_length in H. destruct b; [congruence|simpl in H; lia].
Qed.

Lemma append_nonempty (a b : string) : a <> "" -> (a ++ b)%string <> "".
Proof. destruct a; simpl; congruence. Qed.

Section MoreRxFacts.

Context {A : Type}.
Implicit Types (p : A -> bool) (l more : list A).

Lemma find_stable p l more :
  Rx.find p l <> [] -> Rx.find p (l ++ more) = Rx.find p l.
Proof.
  unfold Rx.find. induction l as [|x l IH]; simpl; [congruence|].
  destruct (p x); auto.
Qed.

Lemma find_length p l : length (Rx.find p l) <= 1.
Proof. unfold Rx.find. destruct (List.find p l); simpl; lia. Qed.

Lemma find_member p l x : In x (Rx.find p l) -> In x l /\ p x = true.
Proof.
  unfold Rx.find. destruct (List.find p l) as [y|] eqn:E; simpl.
  - intros [<-|[]]. now apply find_some in E.
  - intros [].
Qed.

End MoreRxFacts.

Lemma distinctAfter_map (f : string -> string) (a : string)
      (l : list string) :
  (forall x y, f x = f y -> x = y) ->
  Rx.distinctAfter String.eqb (f a) (List.map f l)
  = List.map f (Rx.distinctAfter String.eqb a l).
Proof.
  intros Hinj. revert a. induction l as [|x l IH]; intros a; simpl; auto.
  destruct (String.eqb_spec a x) as [->|ne].
  - rewrite String.eqb_refl. apply IH.
  - destruct (String.eqb_spec (f a) (f x)) as [e|_].
    + now apply Hinj in e.
    + simpl. now rewrite IH.
Qed.

Lemma distinct_map (f : string -> string) (l : list string) :
  (forall x y, f x = f y -> x = y) ->
  Rx.distinctUntilChanged String.eqb (List.map f l)
  = List.map f (Rx.distinctUntilChanged String.eqb l).
Proof.
  intros Hinj. destruct l as [|x l]; simpl; auto.
  now rewrite distinctAfter_map.
Qed.

Lemma neighboursDiffer_after (a : string) (l : list string) :
  Observations.neighboursDiffer (a :: Rx.distinctAfter String.eqb a l) = true.
Proof.
  revert a. induction l as [|x l IH]; intros a; [reflexivity|].
  cbn [Rx.distinctAfter].
  destruct (String.eqb_spec a x) as [->|ne]; [apply IH|].
  change (negb (String.eqb a x)
          && Observations.neighboursDiffer
               (x :: Rx.distinctAfter String.eqb x l) = true).
  rewrite IH. destruct (String.eqb_spec a x); [contradiction|reflexivity].
Qed.

Lemma neighboursDiffer_distinct (l : list string) :
  Observations.neighboursDiffer (Rx.distinctUntilChanged String.eqb l) = true.
Proof. destruct l; [reflexivity|apply neighboursDiffer_after]. Qed.

Lemma neighboursDiffer_map (f : string -> string) (l : list string) :
  (forall x y, f x = f y -> x = y) ->
  Observations.neighboursDiffer (List.map f l)
  = Observations.neighboursDiffer l.
Proof.
  intros Hinj. induction l as [|a [|b l] IH]; auto.
  change (negb (String.eqb (f a) (f b))
          && Observations.neighboursDiffer (List.map f (b :: l))
          = negb (String.eqb a b) && Observations.neighboursDiffer (b :: l)).
  rewrite IH. f_equal. f_equal.
  destruct (String.eqb_spec a b) as [->|ne].
  - apply String.eqb_refl.
  - apply String.eqb_neq. intros e. now apply Hinj in e.
Qed.

Lemma distinct_subset {A} (same : A -> A -> bool) (l : list A) x :
  In x (Rx.distinctUntilChanged same l) -> In x l.
Proof.
  assert (forall a l, In x (Rx.distinctAfter same a l) -> In x l) as Hafter.
  { intros a l0. revert a. induction l0 as [|y l0 IH]; intros a; simpl; auto.
    destruct (same a y); simpl; intros H.
    - right. now apply (IH a).
    - destruct H as [->|H]; [now left|right; now apply (IH y)]. }
  destruct l as [|y l]; simpl; auto.
  intros [->|H]; [now left|right; now apply (Hafter y)].
Qed.

(* ------------------------------------------------------------------------- *)
(** ** More on the task request pipeline *)

Lemma skipn_new {A} (old new : list A) : skipn (length old) (old ++ new) = new.
Proof. induction old; simpl; auto. Qed.

Lemma getEndpointByIDHref_endpoint (resourceID : option string)
      (endpoint1 endpoint2 : string) :
  Tasks.getEndpointByIDHref endpoint1 resourceID
  = Tasks.getEndpointByIDHref endpoint2 resourceID ->
  endpoint1 = endpoint2.
Proof.
  unfold Tasks.getEndpointByIDHref.
  destruct (EmptyUtil.isNotEmpty resourceID); auto.
  apply append_inv_tail.
Qed.

Lemma getEndpointByIDHref_nonempty (resourceID : option string)
      (endpoint : string) :
  endpoint <> "" -> Tasks.getEndpointByIDHref endpoint resourceID <> "".
Proof.
  intros H. unfold Tasks.getEndpointByIDHref.
  destruct (EmptyUtil.isNotEmpty resourceID); auto.
  now apply append_nonempty.
Qed.

(** X1. For non-empty identifiers the href of [getEndpointByIDHref] tells
    the identifier: two identifiers give the same href under one endpoint
    only when they are equal, and the scoped href never coincides with the
    bare endpoint returned for a missing identifier. *)
Theorem scoped_href_determines_identifier (endpoint id1 id2 : string) :
  id1 <> "" -> id2 <> "" ->
  (Tasks.getEndpointByIDHref endpoint (Some id1)
   = Tasks.getEndpointByIDHref endpoint (Some id2) -> id1 = id2)
  /\ Tasks.getEndpointByIDHref endpoint (Some id1)
     <> Tasks.getEndpointByIDHref endpoint None.
Proof.
  intros H1 H2. unfold Tasks.getEndpointByIDHref, EmptyUtil.isNotEmpty.
  apply isNotEmptyString_true in H1 as E1.
  apply isNotEmptyString_true in H2 as E2.
  rewrite E1, E2. simpl. split.
  - intros H. apply append_inv_head in H. now injection H.
  - apply append_grows. discriminate.
Qed.

Lemma scoped_href_determines_identifier_witness :
  Tasks.getEndpointByIDHref "https://api/claimtask" (Some "123")
  <> Tasks.getEndpointByIDHref "https://api/claimtask" None.
Proof.
  apply (scoped_href_determines_identifier "https://api/claimtask" "123" "7");
    discriminate.
Defined.

Section MoreTasksFacts.

Import Rx EmptyUtil Requests Tasks.

Variable Any : Type.
Variable halService_getEndpoint : string -> Observable string.
Variable rdbService_buildFromRequestUUID
  : RequestId -> Observable (Remote.RemoteData Any).
Variable this_linkPath : string.

Local Notation "'fetch'" := (fetchRequest rdbService_buildFromRequestUUID).
Local Notation "'post'" := (postToEndpoint halService_getEndpoint
                                           rdbService_buildFromRequestUUID).
Local Notation "'delete'" := (deleteById halService_getEndpoint
                                         rdbService_buildFromRequestUUID
                                         this_linkPath).
Local Notation "'postUrls'" := (Tasks.postUrls halService_getEndpoint).
Local Notation "'deleteUrls'" :=
  (getEndpointById halService_getEndpoint this_linkPath).

(** The requests a call adds to the log of the request service. *)
Local Notation "'added' rs run" :=
  (skipn (length (configured rs)) (configured (snd run)))
    (at level 10, rs at level 9, run at level 9).

Lemma added_by_post linkPath body scopeId options rs :
  added rs (post linkPath body scopeId options rs)
  = List.map (fun u => TaskPostRequest (nextId rs) u body options)
             (postUrls linkPath scopeId).
Proof. rewrite postToEndpoint_run. simpl. apply skipn_new. Qed.

Lemma added_by_delete linkPath scopeId options rs :
  added rs (delete linkPath scopeId options rs)
  = List.map (fun u => TaskDeleteRequest (nextId rs) u None options)
             (deleteUrls scopeId (Some linkPath)).
Proof. rewrite deleteById_run. simpl. apply skipn_new. Qed.

Lemma postUrls_origin linkPath scopeId url :
  In url (postUrls linkPath scopeId) ->
  exists endpoint,
    In endpoint (halService_getEndpoint linkPath) /\ endpoint <> ""
    /\ url = getEndpointByIDHref endpoint scopeId.
Proof.
  unfold Tasks.postUrls. intros H. apply distinct_subset in H.
  unfold map, filter in H. apply in_map_iff in H as (e & <- & He).
  apply filter_In in He as [Hin Hne].
  exists e. repeat split; auto. now apply isNotEmptyString_true.
Qed.

Lemma deleteUrls_origin scopeId linkPath url :
  In url (deleteUrls scopeId linkPath) ->
  exists endpoint,
    In endpoint (halService_getEndpoint (orElse linkPath this_linkPath))
    /\ endpoint <> ""
    /\ url = getEndpointByIDHref endpoint (Some scopeId).
Proof.
  unfold getEndpointById, map. intros H.
  apply in_map_iff in H as (e & <- & He).
  apply distinct_subset in He. apply filter_In in He as [Hin Hne].
  exists e. repeat split; auto. now apply isNotEmptyString_true.
Qed.

(** X2. Every request [postToEndpoint] adds is a [TaskPostRequest] with the
    one identifier generated for the call, the given body and options, and
    an href built from a non-empty endpoint the resolver delivered; the
    request service hands out exactly one identifier per call.  [deleteById]
    does the same with [TaskDeleteRequest]s that never carry a body. *)
Theorem task_requests_come_from_endpoints
        linkPath body scopeId scope options rs :
  nextId (snd (post linkPath body scopeId options rs)) = S (nextId rs)
  /\ nextId (snd (delete linkPath scope options rs)) = S (nextId rs)
  /\ Forall (fun request =>
               exists endpoint,
                 In endpoint (halService_getEndpoint linkPath)
                 /\ endpoint <> ""
                 /\ request
                    = TaskPostRequest (nextId rs)
                        (getEndpointByIDHref endpoint scopeId) body options
                 /\ href request <> "")
            (added rs (post linkPath body scopeId options rs))
  /\ Forall (fun request =>
               exists endpoint,
                 In endpoint
                    (halService_getEndpoint
                       (orElse (Some linkPath) this_linkPath))
                 /\ endpoint <> ""
                 /\ request
                    = TaskDeleteRequest (nextId rs)
                        (getEndpointByIDHref endpoint (Some scope))
                        None options
                 /\ href request <> "")
            (added rs (delete linkPath scope options rs)).
Proof.
  split; [now rewrite postToEndpoint_run|].
  split; [now rewrite deleteById_run|].
  rewrite added_by_post, added_by_delete. split.
  - apply Forall_forall. intros r Hr.
    apply in_map_iff in Hr as (u & <- & Hu).
    destruct (postUrls_origin _ _ _ Hu) as (e & Hin & Hne & ->).
    exists e. repeat split; auto. simpl.
    now apply getEndpointByIDHref_nonempty.
  - apply Forall_forall. intros r Hr.
    apply in_map_iff in Hr as (u & <- & Hu).
    destruct (deleteUrls_origin _ _ _ Hu) as (e & Hin & Hne & ->).
    exists e. repeat split; auto. simpl.
    now apply getEndpointByIDHref_nonempty.
Qed.

(** X3. Within one call no two consecutive requests go to the same href:
    an endpoint the resolver repeats is submitted once, by [postToEndpoint]
    and by [deleteById] alike. *)
Theorem repeated_endpoint_submitted_once
        linkPath body scopeId scope options rs :
  Observations.neighboursDiffer
    (List.map href (added rs (post linkPath body scopeId options rs)))
  = true
  /\ Observations.neighboursDiffer
       (List.map href (added rs (delete linkPath scope options rs)))
     = true.
Proof.
  rewrite added_by_post, added_by_delete, !map_map. simpl.
  rewrite !map_id. split.
  - apply neighboursDiffer_distinct.
  - unfold getEndpointById, map.
    rewrite neighboursDiffer_map.
    + apply neighboursDiffer_distinct.
    + apply getEndpointByIDHref_endpoint.
Qed.

(** X4. For a non-empty link path and the same scope, [postToEndpoint] and
    [deleteById] address the same hrefs in the same order, although the
    first maps to the scoped href before dropping repetitions and the second
    after. *)
Theorem post_and_delete_share_targets
        linkPath body scope options options' rs rs' :
  linkPath <> "" ->
  List.map href (added rs (post linkPath body (Some scope) options rs))
  = List.map href (added rs' (delete linkPath scope options' rs')).
Proof.
  intros Hlp. rewrite added_by_post, added_by_delete, !map_map. simpl.
  rewrite !map_id. unfold Tasks.postUrls, getEndpointById, map, orElse.
  apply isNotEmptyString_true in Hlp. unfold isNotEmptyString in Hlp.
  destruct (String.eqb linkPath ""); [discriminate|].
  apply distinct_map. apply getEndpointByIDHref_endpoint.
Qed.

(** X5. A call emits at most one outcome per request it submitted, and none
    while the gateway has not resolved the request identifier, although the
    requests are submitted all the same. *)
Theorem outcomes_bounded_by_requests linkPath body scopeId scope options rs :
  length (fst (post linkPath body scopeId options rs))
  <= length (added rs (post linkPath body scopeId options rs))
  /\ length (fst (delete linkPath scope options rs))
     <= length (added rs (delete linkPath scope options rs))
  /\ (Forall (@Remote.pending Any)
             (rdbService_buildFromRequestUUID (nextId rs)) ->
      fst (post linkPath body scopeId options rs) = []
      /\ fst (delete linkPath scope options rs) = []
      /\ length (added rs (post linkPath body scopeId options rs))
         = length (postUrls linkPath scopeId)).
Proof.
  assert (length (fetch (nextId rs)) <= 1) as Hone.
  { unfold fetchRequest, Remote.getFirstCompletedRemoteData, map.
    rewrite length_map. apply find_length. }
  assert (forall {B} (l : list B),
             length (flat_map (fun _ => fetch (nextId rs)) l) <= length l)
    as Hbound.
  { intros B l. induction l as [|x l IH]; simpl; auto.
    rewrite length_app. lia. }
  rewrite added_by_post, added_by_delete, !length_map.
  rewrite postToEndpoint_run, deleteById_run. simpl.
  split; [apply Hbound|]. split; [apply Hbound|].
  intros Hpending. rewrite (fetchRequest_pending _ _ _ Hpending).
  assert (forall {B} (l : list B),
             flat_map (fun _ => @nil ProcessTaskResponse) l = []) as Hnil.
  { intros B l. induction l; simpl; auto. }
  rewrite !Hnil. auto.
Qed.

End MoreTasksFacts.

Section MoreTaskScenarios.

Import Rx Requests Tasks Scenarios MoreScenarios.

Lemma post_and_delete_share_targets_witness :
  List.map href
           (skipn (length (configured freshRequestService))
                  (configured
                     (snd (postToEndpoint halMoves gatewayOk "claimtask"
                                          (Some "{}") (Some "123") None
                                          freshRequestService))))
  = List.map href
             (skipn (length (configured usedRequestService))
                    (configured
                       (snd (deleteById halMoves gatewayOk "claimedtasks"
                                        "claimtask" "123" None
                                        usedRequestService)))).
Proof.
  apply (post_and_delete_share_targets
           unit halMoves gatewayOk "claimedtasks" "claimtask" (Some "{}")
           "123" None None freshRequestService usedRequestService).
  discriminate.
Defined.

Lemma outcomes_bounded_by_requests_witness :
  fst (postToEndpoint halMoves gatewayEarly "claimtask" (Some "{}")
                      (Some "123") None freshRequestService)
  = []
  /\ length (configured
               (snd (postToEndpoint halMoves gatewayEarly "claimtask"
                                    (Some "{}") (Some "123") None
                                    freshRequestService)))
     = 2.
Proof.
  destruct (outcomes_bounded_by_requests
              unit halMoves gatewayEarly "claimedtasks" "claimtask"
              (Some "{}") (Some "123") "123" None freshRequestService)
    as (_ & _ & Hpending).
  destruct (Hpending ltac:(repeat constructor)) as (Hnone & _ & Hadded).
  split; [exact Hnone | exact Hadded].
Defined.

End MoreTaskScenarios.

Section ResolutionFacts.

Import Rx EmptyUtil Requests Tasks.

Variable Any : Type.
Variable halService_getEndpoint : string -> Observable string.
Variables early later : RequestId -> Observable (Remote.RemoteData Any).
Variable this_linkPath : string.

(** X6. The first resolution is final: when the gateway's stream for the
    request identifier grows after an outcome has been produced, the outcome
    of [fetchRequest], and with it the whole result of [postToEndpoint] and
    [deleteById], stays what it was. *)
Theorem first_resolution_is_final
        linkPath body scopeId scope options rs more :
  later (nextId rs) = early (nextId rs) ++ more ->
  fetchRequest early (nextId rs) <> [] ->
  fetchRequest later (nextId rs) = fetchRequest early (nextId rs)
  /\ postToEndpoint halService_getEndpoint later linkPath body scopeId
                    options rs
     = postToEndpoint halService_getEndpoint early linkPath body scopeId
                      options rs
  /\ deleteById halService_getEndpoint later this_linkPath linkPath scope
                options rs
     = deleteById halService_getEndpoint early this_linkPath linkPath scope
                  options rs.
Proof.
  intros Hgrow Hsome.
  assert (fetchRequest later (nextId rs) = fetchRequest early (nextId rs))
    as Hsame.
  { unfold fetchRequest, Remote.getFirstCompletedRemoteData in *.
    rewrite Hgrow, find_stable; auto.
    intros Hnil. apply Hsome. now rewrite Hnil. }
  split; [exact Hsame|].
  rewrite !postToEndpoint_run, !deleteById_run, Hsame. auto.
Qed.

(** X7. A missing or empty link path falls back to the link path of the
    service: [getEndpointById] resolves the same endpoint for both, and
    [deleteById] called with an empty link path behaves as called with the
    service's own. *)
Theorem missing_link_path_defaults scope options rs :
  getEndpointById halService_getEndpoint this_linkPath scope None
  = getEndpointById halService_getEndpoint this_linkPath scope
                    (Some this_linkPath)
  /\ getEndpointById halService_getEndpoint this_linkPath scope (Some "")
     = getEndpointById halService_getEndpoint this_linkPath scope
                       (Some this_linkPath)
  /\ deleteById halService_getEndpoint early this_linkPath "" scope options rs
     = deleteById halService_getEndpoint early this_linkPath this_linkPath
                  scope options rs.
Proof.
  assert (orElse (Some this_linkPath) this_linkPath = this_linkPath) as Hown.
  { unfold orElse. now destruct (String.eqb this_linkPath ""). }
  unfold deleteById, getEndpointById. rewrite Hown. simpl. auto.
Qed.

End ResolutionFacts.

Lemma first_resolution_is_final_witness :
  Tasks.postToEndpoint Scenarios.halClaimtask MoreScenarios.gatewayLater
                       "claimtask" (Some "{}") (Some "123") None
                       Scenarios.freshRequestService
  = Tasks.postToEndpoint Scenarios.halClaimtask
                         (fun _ => [Remote.RequestPending;
                                    Remote.Success tt (Some 200)])
                         "claimtask" (Some "{}") (Some "123") None
                         Scenarios.freshRequestService.
Proof.
  destruct (first_resolution_is_final
              unit Scenarios.halClaimtask
              (fun _ => [Remote.RequestPending; Remote.Success tt (Some 200)])
              MoreScenarios.gatewayLater "claimedtasks" "claimtask"
              (Some "{}") (Some "123") "123" None
              Scenarios.freshRequestService
              [Remote.Failure (Some 500) (Some "Internal Server Error")]
              eq_refl ltac:(discriminate)) as (_ & Hpost & _).
  exact Hpost.
Defined.

Section MoreSearchFacts.

Import Rx Tasks.

Variables FindListOptions FollowLinkConfig T : Type.
Variable hasValue : string -> bool.
Variables candidates candidates'
  : string -> FindListOptions -> list FollowLinkConfig -> Observable string.
Variable findByHref : string -> Observable (Remote.RemoteData T).

(** X8. [searchTask] hands at most one href to [findByHref], and once a
    candidate has been accepted later candidates change nothing: the search
    on the longer candidate trace is the search on the shorter one. *)
Theorem search_settles_on_first_candidate
        searchMethod options linksToFollow more :
  length (searchTaskHref hasValue candidates searchMethod options
                         linksToFollow) <= 1
  /\ (candidates' searchMethod options linksToFollow
      = candidates searchMethod options linksToFollow ++ more ->
      searchTaskHref hasValue candidates searchMethod options linksToFollow
      <> [] ->
      searchTask hasValue candidates' findByHref searchMethod options
                 linksToFollow
      = searchTask hasValue candidates findByHref searchMethod options
                   linksToFollow).
Proof.
  split.
  - apply find_length.
  - intros Hgrow Hsome. unfold searchTask, searchTaskHref in *.
    now rewrite Hgrow, find_stable.
Qed.

End MoreSearchFacts.

Lemma search_settles_on_first_candidate_witness :
  Tasks.searchTask EmptyUtil.hasValue Scenarios.searchHrefs
                   Scenarios.findTaskByHref "findByItem" tt []
  = Tasks.searchTask EmptyUtil.hasValue
                     (fun (_ : string) (_ : unit) (_ : list unit) =>
                        [""; "https://api/pooltasks/search/findByItem"])
                     Scenarios.findTaskByHref "findByItem" tt [].
Proof.
  destruct (search_settles_on_first_candidate
              unit unit string EmptyUtil.hasValue
              (fun (_ : string) (_ : unit) (_ : list unit) =>
                 [""; "https://api/pooltasks/search/findByItem"])
              Scenarios.searchHrefs Scenarios.findTaskByHref
              "findByItem" tt [] ["https://api/pooltasks/search/other"])
    as [_ Hsettled].
  apply Hsettled; [reflexivity | discriminate].
Defined.

(* ------------------------------------------------------------------------- *)
(** ** More on the vocabulary entry pipeline *)

Lemma newEntriesRequests_identifiers (hrefs : list string)
      (rs : Requests.RequestService) :
  List.map Requests.uuid (fst (Vocabularies.newEntriesRequests hrefs rs))
  = seq (Requests.nextId rs) (length hrefs)
  /\ Requests.nextId (snd (Vocabularies.newEntriesRequests hrefs rs))
     = Requests.nextId rs + length hrefs.
Proof.
  revert rs. induction hrefs as [|h hrefs IH]; intros rs; simpl.
  - split; [reflexivity|lia].
  - specialize (IH (Requests.mkRequestService (S (Requests.nextId rs))
                                              (Requests.configured rs))).
    destruct (Vocabularies.newEntriesRequests hrefs _) as [reqs rs2].
    simpl in *. destruct IH as [Hu Hn]. split; [now rewrite Hu | lia].
Qed.

Lemma map_assignVocabularyEntry (entries : list Vocabularies.VocabularyEntry) :
  List.map Vocabularies.assignVocabularyEntry entries = entries.
Proof.
  induction entries as [|[a d v o] entries IH]; simpl; [|rewrite IH]; auto.
Qed.

Section MoreVocabularyFacts.

Import Rx EmptyUtil Requests Vocabularies.

Variable RequestEntry : Type.
Variable findVocabularyById
  : string -> Observable (Remote.RemoteData Vocabulary).
Variable buildHrefFromFindOptions : string -> VocabularyFindOptions -> string.
Variable getRequestFromRequestHref
  : Observable string -> Observable RequestEntry.
Variable filterSuccessfulResponses
  : Observable RequestEntry -> Observable GenericSuccessResponse.
Variable toRemoteDataObservable
  : Observable RequestEntry -> Observable (PaginatedList VocabularyEntry) ->
    Observable (Remote.RemoteData (PaginatedList VocabularyEntry)).
Variable newPageInfo : PageInfo.

Local Notation "'entriesFor'" :=
  (getVocabularyEntriesFor getRequestFromRequestHref filterSuccessfulResponses
                           toRemoteDataObservable).
Local Notation "'entries'" :=
  (getVocabularyEntries
     findVocabularyById buildHrefFromFindOptions getRequestFromRequestHref
     filterSuccessfulResponses toRemoteDataObservable).
Local Notation "'added' rs run" :=
  (skipn (length (configured rs)) (configured (snd run)))
    (at level 10, rs at level 9, run at level 9).

Lemma entriesFor_state hrefs rs :
  snd (entriesFor hrefs rs)
  = mkRequestService
      (nextId rs + length hrefs + length hrefs)
      (configured rs
       ++ Observations.entriesRequestsFrom (nextId rs) hrefs
       ++ Observations.entriesRequestsFrom (nextId rs + length hrefs) hrefs).
Proof. apply getVocabularyEntriesFor_state. Qed.

(** X9. [getVocabularyEntries] asks for the entries of the first vocabulary
    that was fetched successfully, whatever the vocabulary stream delivers
    afterwards.  Its requests go to the href built from that vocabulary's
    entries link and the page size and page number of [pageInfo] (no value,
    exact or ID filter): two of them, one for each of the two streams handed
    to the remote-data builder, with two fresh identifiers.  When that href
    comes out empty it submits nothing. *)
Theorem entries_request_follows_first_vocabulary
        vocabularyOptions pageInfo rs waiting vocabulary code afterwards :
  findVocabularyById (name vocabularyOptions)
  = waiting ++ Remote.Success vocabulary code :: afterwards ->
  Forall (fun rd => Remote.hasSucceeded rd = false) waiting ->
  let target :=
    buildHrefFromFindOptions
      (href (Vocabularies.entries (_links vocabulary)))
      (mkVocabularyFindOptions None None None None
                               (elementsPerPage pageInfo)
                               (currentPage pageInfo)) in
  (target <> "" ->
   snd (entries vocabularyOptions pageInfo rs)
   = mkRequestService
       (S (S (nextId rs)))
       (configured rs ++ [VocabularyEntriesRequest (nextId rs) target;
                          VocabularyEntriesRequest (S (nextId rs)) target]))
  /\ (target = "" -> snd (entries vocabularyOptions pageInfo rs) = rs).
Proof.
  intros E Hwait target.
  assert (entriesHref findVocabularyById buildHrefFromFindOptions
                      vocabularyOptions
                      (mkVocabularyFindOptions None None None None
                                               (elementsPerPage pageInfo)
                                               (currentPage pageInfo))
          = if isNotEmptyString target then [target] else []) as Hhref.
  { unfold entriesHref. rewrite E, firstSucceeded_first by assumption.
    unfold map, isNotEmptyOperator, filter. simpl. fold target.
    now destruct (isNotEmptyString target). }
  unfold getVocabularyEntries. cbv zeta. rewrite Hhref. split.
  - intros Hne. apply isNotEmptyString_true in Hne. rewrite Hne.
    rewrite entriesFor_state. simpl.
    replace (nextId rs + 1) with (S (nextId rs)) by lia.
    f_equal. lia.
  - intros Hempty. rewrite Hempty. rewrite entriesFor_state. simpl.
    rewrite !Nat.add_0_r, app_nil_r. now destruct rs.
Qed.


(** X11. [toRDPaginatedVocabularyEntries] hands the remote-data builder the
    request entries of the requests' hrefs and, for every successful
    response, a list with that response's page info and its entries
    unchanged and in the same order: wrapping each entry as a
    [VocabularyEntry] neither drops nor reorders nor alters entries. *)
Theorem entries_reach_builder_unchanged (source : Observable RestRequest) :
  toRDPaginatedVocabularyEntries
    getRequestFromRequestHref filterSuccessfulResponses
    toRemoteDataObservable source
  = toRemoteDataObservable
      (getRequestFromRequestHref (List.map Requests.href source))
      (List.map (fun response =>
                   mkPaginatedList (responsePageInfo response)
                                   (responsePayload response))
                (filterSuccessfulResponses
                   (getRequestFromRequestHref
                      (List.map Requests.href source)))).
Proof.
  unfold toRDPaginatedVocabularyEntries, map.
  rewrite distinct_sameReference, map_map. f_equal.
  apply map_ext. intros response. simpl.
  destruct (responsePayload response) as [found|]; auto.
  now rewrite map_assignVocabularyEntry.
Qed.

(** X12. The single-entry lookups emit at most one value, an entry or
    [null], however many envelopes the entries stream holds, and submit
    exactly the requests of the list pipeline they run: for the lookup by ID
    none, or two to one and the same href. *)
Theorem lookups_emit_at_most_once value ID vocabularyOptions rs :
  length (fst (getVocabularyEntryByValue
                 findVocabularyById buildHrefFromFindOptions
                 getRequestFromRequestHref filterSuccessfulResponses
                 toRemoteDataObservable newPageInfo
                 value vocabularyOptions rs)) <= 1
  /\ length (fst (getVocabularyEntryByID
                    findVocabularyById buildHrefFromFindOptions
                    getRequestFromRequestHref filterSuccessfulResponses
                    toRemoteDataObservable newPageInfo
                    ID vocabularyOptions rs)) <= 1
  /\ snd (getVocabularyEntryByValue
            findVocabularyById buildHrefFromFindOptions
            getRequestFromRequestHref filterSuccessfulResponses
            toRemoteDataObservable newPageInfo value vocabularyOptions rs)
     = snd (getVocabularyEntriesByValue
              findVocabularyById buildHrefFromFindOptions
              getRequestFromRequestHref filterSuccessfulResponses
              toRemoteDataObservable value true vocabularyOptions newPageInfo
              rs)
  /\ exists hrefs,
      length hrefs <= 1
      /\ List.map Requests.href
                  (added rs (getVocabularyEntryByID
                               findVocabularyById buildHrefFromFindOptions
                               getRequestFromRequestHref
                               filterSuccessfulResponses
                               toRemoteDataObservable newPageInfo
                               ID vocabularyOptions rs))
         = hrefs ++ hrefs.
Proof.
  rewrite getVocabularyEntryByValue_run, getVocabularyEntryByID_run.
  split; [|split; [|split; [reflexivity|]]].
  - unfold fst at 1, getFirstSucceededRemoteListPayload, map.
    rewrite !length_map. apply firstSucceeded_at_most_one.
  - unfold fst at 1, getFirstSucceededRemoteListPayload, map.
    rewrite !length_map. apply firstSucceeded_at_most_one.
  - unfold snd at 1.
    destruct (entriesFor_configured
                RequestEntry getRequestFromRequestHref
                filterSuccessfulResponses toRemoteDataObservable
                (entriesHref findVocabularyById buildHrefFromFindOptions
                   vocabularyOptions
                   (mkVocabularyFindOptions
                      None None None (Some ID) (elementsPerPage newPageInfo)
                      (currentPage newPageInfo)))
                rs) as (issued & Hc & Hh & _).
    rewrite Hc, skipn_new, Hh. eexists. split; [|reflexivity].
    apply entriesHref_at_most_one.
Qed.

End MoreVocabularyFacts.

Lemma entries_request_follows_first_vocabulary_witness :
  snd (Vocabularies.getVocabularyEntries
         MoreScenarios.findVocabularyRevised Scenarios.buildHref
         Scenarios.requestEntries (Scenarios.respondsWith [Scenarios.entry42])
         Scenarios.remoteDataOf Scenarios.srsc
         (Vocabularies.mkPageInfo (Some 20) (Some 1) None None)
         Scenarios.freshRequestService)
  = Requests.mkRequestService
      2 [Requests.VocabularyEntriesRequest
           0 "https://api/vocabularies/srsc/entries?";
         Requests.VocabularyEntriesRequest
           1 "https://api/vocabularies/srsc/entries?"]
  /\ snd (Vocabularies.getVocabularyEntries
            MoreScenarios.findVocabularyRevised MoreScenarios.buildNothing
            Scenarios.requestEntries
            (Scenarios.respondsWith [Scenarios.entry42])
            Scenarios.remoteDataOf Scenarios.srsc
            (Vocabularies.mkPageInfo (Some 20) (Some 1) None None)
            Scenarios.freshRequestService)
     = Scenarios.freshRequestService.
Proof.
  split.
  - destruct (entries_request_follows_first_vocabulary
                string MoreScenarios.findVocabularyRevised Scenarios.buildHref
                Scenarios.requestEntries
                (Scenarios.respondsWith [Scenarios.entry42])
                Scenarios.remoteDataOf Scenarios.srsc
                (Vocabularies.mkPageInfo (Some 20) (Some 1) None None)
                Scenarios.freshRequestService
                [Remote.RequestPending] _ (Some 200) _
                eq_refl ltac:(repeat constructor)) as [Hsubmitted _].
    apply Hsubmitted. discriminate.
  - destruct (entries_request_follows_first_vocabulary
                string MoreScenarios.findVocabularyRevised
                MoreScenarios.buildNothing Scenarios.requestEntries
                (Scenarios.respondsWith [Scenarios.entry42])
                Scenarios.remoteDataOf Scenarios.srsc
                (Vocabularies.mkPageInfo (Some 20) (Some 1) None None)
                Scenarios.freshRequestService
                [Remote.RequestPending] _ (Some 200) _
                eq_refl ltac:(repeat constructor)) as [_ Hnothing].
    apply Hnothing. reflexivity.
Defined.

(* ------------------------------------------------------------------------- *)
(** ** Request identifiers across the services *)

Section IdentifierFacts.

Import Rx Requests.

Variable Any : Type.
Variable halService_getEndpoint : string -> Observable string.
Variable rdbService_buildFromRequestUUID
  : RequestId -> Observable (Remote.RemoteData Any).
Variable this_linkPath : string.
Variable RequestEntry : Type.
Variable getRequestFromRequestHref
  : Observable string -> Observable RequestEntry.
Variable filterSuccessfulResponses
  : Observable RequestEntry -> Observable Vocabularies.GenericSuccessResponse.
Variable toRemoteDataObservable
  : Observable RequestEntry ->
    Observable (Vocabularies.PaginatedList Vocabularies.VocabularyEntry) ->
    Observable (Remote.RemoteData
                  (Vocabularies.PaginatedList Vocabularies.VocabularyEntry)).

Lemma handedOut_extended rs n (new : list RestRequest) :
  Observations.identifiersHandedOut rs ->
  nextId rs <= n ->
  Forall (fun r => uuid r < n) new ->
  Observations.identifiersHandedOut
    (mkRequestService n (configured rs ++ new)).
Proof.
  unfold Observations.identifiersHandedOut. simpl. intros Hold Hn Hnew.
  apply Forall_app. split; [|exact Hnew].
  eapply Forall_impl; [|exact Hold]. simpl. intros r Hr. lia.
Qed.

(** X13. Every service call generates an identifier before it submits a
    request with it: if all requests in the log of the request service carry
    identifiers the service has handed out, this is still so after
    [postToEndpoint], [deleteById] and [getVocabularyEntriesFor], so an
    identifier generated later is never that of a request already
    submitted. *)
Theorem identifiers_stay_handed_out
        linkPath body scopeId scope options hrefs rs :
  Observations.identifiersHandedOut rs ->
  Observations.identifiersHandedOut
    (snd (Tasks.postToEndpoint halService_getEndpoint
                               rdbService_buildFromRequestUUID
                               linkPath body scopeId options rs))
  /\ Observations.identifiersHandedOut
       (snd (Tasks.deleteById halService_getEndpoint
                              rdbService_buildFromRequestUUID this_linkPath
                              linkPath scope options rs))
  /\ Observations.identifiersHandedOut
       (snd (Vocabularies.getVocabularyEntriesFor
               getRequestFromRequestHref filterSuccessfulResponses
               toRemoteDataObservable hrefs rs)).
Proof.
  intros Hold.
  rewrite postToEndpoint_run, deleteById_run, entriesFor_state. simpl.
  split; [|split]; apply handedOut_extended; auto; try lia.
  - apply Forall_forall. intros r Hr.
    apply in_map_iff in Hr as (u & <- & _). simpl. lia.
  - apply Forall_forall. intros r Hr.
    apply in_map_iff in Hr as (u & <- & _). simpl. lia.
  - apply Forall_forall. intros r Hr.
    apply (in_map uuid) in Hr.
    rewrite map_app, !entriesRequestsFrom_uuid, <- seq_app in Hr.
    apply in_seq in Hr. lia.
Qed.

End IdentifierFacts.

Lemma identifiers_stay_handed_out_witness :
  Observations.identifiersHandedOut
    (snd (Tasks.postToEndpoint MoreScenarios.halMoves Scenarios.gatewayOk
                               "claimtask" None (Some "123") None
                               MoreScenarios.usedRequestService)).
Proof.
  apply (identifiers_stay_handed_out
           unit MoreScenarios.halMoves Scenarios.gatewayOk "claimedtasks"
           string Scenarios.requestEntries
           (Scenarios.respondsWith [Scenarios.entry42]) Scenarios.remoteDataOf
           "claimtask" None (Some "123") "123" None []
           MoreScenarios.usedRequestService).
  repeat constructor.
Defined.

(* ------------------------------------------------------------------------- *)
(** ** Entry details *)

Lemma findId_split (name1 name2 id1 id2 : string) :
  EntryDetails.occurs ":"%char name1 = false ->
  EntryDetails.occurs ":"%char name2 = false ->
  (name1 ++ ":" ++ id1)%string = (name2 ++ ":" ++ id2)%string ->
  name1 = name2 /\ id1 = id2.
Proof.
  revert name2. induction name1 as [|c name1 IH]; intros [|d name2];
    simpl; intros H1 H2 E.
  - injection E as E. auto.
  - injection E as Ec _. subst d. discriminate H2.
  - injection E as Ec _. subst c. discriminate H1.
  - injection E as Ec E. subst d.
    apply Bool.orb_false_iff in H1 as [_ H1].
    apply Bool.orb_false_iff in H2 as [_ H2].
    destruct (IH name2 H1 H2 E) as [-> ->]. auto.
Qed.

(** X14. For vocabulary names without a colon the identifier
    [name:id] of [findEntryDetailById] and the link path [name:value/parent]
    of [getEntryDetailParent] tell the vocabulary and the entry apart: equal
    identifiers or link paths come from equal names and entries.  A parent
    link path is never a children link path.  With a colon in the name two
    different entries can share an identifier. *)
Theorem entry_detail_addresses_tell_entries_apart
        (name1 name2 value1 value2 : string) :
  EntryDetails.occurs ":"%char name1 = false ->
  EntryDetails.occurs ":"%char name2 = false ->
  (EntryDetails.findId name1 value1 = EntryDetails.findId name2 value2 ->
   name1 = name2 /\ value1 = value2)
  /\ (EntryDetails.parentLinkPath name1 value1
      = EntryDetails.parentLinkPath name2 value2 ->
      name1 = name2 /\ value1 = value2)
  /\ EntryDetails.parentLinkPath name1 value1
     <> EntryDetails.childrenLinkPath name2 value2
  /\ EntryDetails.findId "a:b" "c" = EntryDetails.findId "a" "b:c".
Proof.
  intros H1 H2. unfold EntryDetails.findId, EntryDetails.parentLinkPath,
    EntryDetails.childrenLinkPath.
  split; [now apply findId_split|]. split; [|split; [|reflexivity]].
  - intros E.
    destruct (findId_split name1 name2 _ _ H1 H2 E) as [-> E'].
    split; [reflexivity|]. now apply append_inv_tail in E'.
  - intros E. apply (f_equal list_ascii_of_string) in E.
    rewrite !list_ascii_append in E. apply (f_equal (@rev _)) in E.
    rewrite !rev_app_distr in E. simpl in E. discriminate E.
Qed.

Lemma entry_detail_addresses_tell_entries_apart_witness :
  EntryDetails.parentLinkPath "srsc" "physics"
  <> EntryDetails.childrenLinkPath "srsc" "physics".
Proof.
  destruct (entry_detail_addresses_tell_entries_apart
              "srsc" "srsc" "physics" "physics" eq_refl eq_refl)
    as (_ & _ & Hdiffer & _).
  exact Hdiffer.
Defined.

(* ------------------------------------------------------------------------- *)
(** ** More on the reloadable action component *)

Section MoreReloadableFacts.

Import Rx Reloadable.

Variable actionExecution : Observable Tasks.ProcessTaskResponse.
Variable reloadObjectExecution : Observable Reloaded.
Variable getSearchResultFor : string -> string.

Local Notation "'delivered'" :=
  (_reloadObject reloadObjectExecution getSearchResultFor).
Local Notation "'effectsOf' res" :=
  (fst (onActionResponse reloadObjectExecution getSearchResultFor res))
    (at level 10).
Local Notation "'valuesOf' res" :=
  (snd (onActionResponse reloadObjectExecution getSearchResultFor res))
    (at level 10).
Local Notation "'started'" :=
  (startActionExecution actionExecution reloadObjectExecution
                        getSearchResultFor).

Lemma effects_of_response res :
  effectsOf res
  = if Tasks.hasSucceeded res
    then flat_map (fun o => [ProcessingNext false; ProcessCompletedEmit true o;
                             successNotification]) delivered
    else [ProcessingNext false; errorNotification].
Proof. unfold onActionResponse. now destruct (Tasks.hasSucceeded res). Qed.

Lemma values_of_response res :
  valuesOf res
  = if Tasks.hasSucceeded res then List.map Some delivered else [None].
Proof. unfold onActionResponse. now destruct (Tasks.hasSucceeded res). Qed.

Lemma delivered_origin o :
  In o delivered ->
  exists dso,
    o = SearchResult (getSearchResultFor (constructorOf dso)) dso
    /\ (In (IsObject dso) reloadObjectExecution
        \/ exists code,
            In (IsRemoteData (Remote.Success dso code))
               reloadObjectExecution).
Proof.
  unfold _reloadObject, map, switchMap. intros H.
  apply in_map_iff in H as (dso & <- & H).
  apply in_flat_map in H as (item & Hitem & H).
  exists dso. split; [reflexivity|].
  destruct item as [[| |p c|c m]|d]; simpl in H;
    try (destruct H as [->|[]]); try contradiction; eauto.
Qed.

Lemma processingAfter_app current (log1 log2 : list Effect) :
  Observations.processingAfter current (log1 ++ log2)
  = Observations.processingAfter
      (Observations.processingAfter current log1) log2.
Proof.
  revert current. induction log1 as [|e log1 IH]; intros current; auto.
  destruct e; simpl; auto.
Qed.

Lemma processingAfter_objects current (objs : list DSpaceObject) :
  Observations.processingAfter
    current
    (flat_map (fun o => [ProcessingNext false; ProcessCompletedEmit true o;
                         successNotification]) objs)
  = match objs with [] => current | _ => false end.
Proof.
  revert current. induction objs as [|o objs IH]; intros current; auto.
  simpl. rewrite IH. now destruct objs.
Qed.

Lemma notified_objects (objs : list DSpaceObject) :
  existsb isNotification
          (flat_map (fun o => [ProcessingNext false;
                               ProcessCompletedEmit true o;
                               successNotification]) objs)
  = match objs with [] => false | _ => true end.
Proof. destruct objs; reflexivity. Qed.

Lemma processingAfter_response current res :
  Observations.processingAfter current (effectsOf res)
  = if existsb isNotification (effectsOf res) then false else current.
Proof.
  rewrite effects_of_response. destruct (Tasks.hasSucceeded res); auto.
  rewrite processingAfter_objects, notified_objects. now destruct delivered.
Qed.

Lemma processingAfter_responses current
      (responses : list Tasks.ProcessTaskResponse) :
  let log :=
    List.concat
      (List.map fst
         (List.map (onActionResponse reloadObjectExecution getSearchResultFor)
                   responses)) in
  Observations.processingAfter current log
  = if existsb isNotification log then false else current.
Proof.
  revert current. induction responses as [|res responses IH];
    intros current; auto.
  simpl. rewrite processingAfter_app, existsb_app, IH.
  rewrite processingAfter_response.
  destruct (existsb isNotification (effectsOf res)); simpl; auto.
  now destruct (existsb isNotification _).
Qed.

(** X15. Whatever the action and the reload emit, [processing$] is false
    after a run of [startActionExecution] exactly when the run has shown a
    notification; a run that shows none (no outcome yet, or a succeeded
    action whose reload delivers nothing) leaves it true. *)
Theorem processing_ends_with_a_notification (before : bool) :
  Observations.processingAfter before (fst started)
  = negb (existsb isNotification (fst started)).
Proof.
  unfold startActionExecution. cbn [fst Observations.processingAfter existsb
                                    isNotification orb].
  rewrite processingAfter_responses.
  now destruct (existsb isNotification _).
Qed.

(** X16. The observable returned by [startActionExecution] emits one value
    for every notification shown and the other way round; it emits [null]
    once for every failed outcome of the action, one error notification
    each. *)
Theorem one_notification_per_emitted_value :
  length (snd started) = length (notifications (fst started))
  /\ length (List.filter isErrorNotification (fst started))
     = length (List.filter (fun res => negb (Tasks.hasSucceeded res))
                           actionExecution)
  /\ length (List.filter (fun v : option DSpaceObject =>
                            match v with None => true | Some _ => false end)
                         (snd started))
     = length (List.filter (fun res => negb (Tasks.hasSucceeded res))
                           actionExecution).
Proof.
  unfold startActionExecution, notifications.
  cbn [fst snd List.filter isNotification isErrorNotification].
  induction actionExecution as [|res responses IH]; [auto|].
  destruct IH as (IH1 & IH2 & IH3).
  cbn [List.map List.concat List.filter].
  rewrite !length_app, !filter_app, !length_app, IH1, IH2, IH3.
  rewrite effects_of_response, values_of_response.
  destruct (Tasks.hasSucceeded res); simpl.
  - fold (notifications
            (flat_map (fun o => [ProcessingNext false;
                                 ProcessCompletedEmit true o;
                                 successNotification]) delivered)).
    rewrite notifications_per_object, no_error_per_object.
    rewrite repeat_length, length_map.
    assert (List.filter (fun v : option DSpaceObject =>
                           match v with None => true | Some _ => false end)
                        (List.map Some delivered) = []) as Hnone.
    { induction delivered; simpl; auto. }
    rewrite Hnone. auto.
  - auto.
Qed.

(** X17. Whatever the action and the reload emit, every [ActionResult] event
    of a run reports success and carries a search result built around an
    object the reload emitted, directly or as the payload of a succeeded
    [RemoteData]; a run never triggers the generic reload. *)
Theorem action_results_carry_reloaded_objects :
  (forall result reloadedObject,
      In (ProcessCompletedEmit result reloadedObject) (fst started) ->
      result = true
      /\ exists dso,
          reloadedObject
          = SearchResult (getSearchResultFor (constructorOf dso)) dso
          /\ (In (IsObject dso) reloadObjectExecution
              \/ exists code,
                  In (IsRemoteData (Remote.Success dso code))
                     reloadObjectExecution))
  /\ ~ In Reload (fst started).
Proof.
  assert (forall e, In e (fst started) ->
                    e = ProcessingNext true
                    \/ exists res, In e (effectsOf res)) as Hblocks.
  { unfold startActionExecution. cbn [fst]. intros e [<-|H]; [now left|].
    right. apply in_concat in H as (blk & Hblk & He).
    apply in_map_iff in Hblk as (run & <- & Hrun).
    apply in_map_iff in Hrun as (res & <- & _). eauto. }
  split.
  - intros result o H. apply Hblocks in H as [H|[res H]]; [discriminate|].
    rewrite effects_of_response in H.
    destruct (Tasks.hasSucceeded res).
    + apply in_flat_map in H as (o' & Ho' & H). simpl in H.
      destruct H as [H|[H|[H|[]]]]; try discriminate.
      injection H as <- <-. split; [reflexivity|].
      now apply delivered_origin.
    + simpl in H. destruct H as [H|[H|[]]]; discriminate.
  - intros H. apply Hblocks in H as [H|[res H]]; [discriminate|].
    rewrite effects_of_response in H.
    destruct (Tasks.hasSucceeded res).
    + apply in_flat_map in H as (o' & _ & H). simpl in H.
      destruct H as [H|[H|[H|[]]]]; discriminate.
    + simpl in H. destruct H as [H|[H|[]]]; discriminate.
Qed.

End MoreReloadableFacts.

Lemma action_results_carry_reloaded_objects_witness :
  List.filter Reloadable.isActionResult
    (fst (Reloadable.startActionExecution
            MoreScenarios.actionRetried MoreScenarios.reloadMixed
            Scenarios.searchResultFor))
  = [Reloadable.ProcessCompletedEmit
       true (Reloadable.SearchResult "ItemSearchResult" Scenarios.item);
     Reloadable.ProcessCompletedEmit
       true (Reloadable.SearchResult "ItemSearchResult" Scenarios.item)]
  /\ Reloadable.SearchResult "ItemSearchResult" Scenarios.item
     = Reloadable.SearchResult
         (Scenarios.searchResultFor
            (Reloadable.constructorOf Scenarios.item))
         Scenarios.item.
Proof.
  split; [reflexivity|].
  destruct (action_results_carry_reloaded_objects
              MoreScenarios.actionRetried MoreScenarios.reloadMixed
              Scenarios.searchResultFor) as [Hcarried _].
  destruct (Hcarried true
                     (Reloadable.SearchResult "ItemSearchResult"
                                              Scenarios.item))
    as (_ & dso & Hdso & _).
  - simpl. tauto.
  - injection Hdso as _ <-. reflexivity.
Defined.
